(** * Updown: a shallow embedding of the HTTP file-sharing handlers

    The development follows the Go program: the request handlers
    [handleRootGet], [handleDownloadGet], [handleUploadPost], the method
    router [routeByMethod] and the helpers [getQueryValueOrDefault] and
    [addQueryToPath].  The Go standard library the handlers call (package
    [path], [net/url], [net/http], [os], [io], [mime/multipart]) is modelled
    first, a package [pkg] as the module [pkg] and its function [pkg.Func]
    under that name.  Effects are explicit: a handler takes the state of
    the machine ([World]) and of the response ([ResponseWriter]) and returns
    the new ones, together with the way it left ([Returned] or
    [Panicked]). *)

From Stdlib Require Import ZArith Ascii.
From Stdlib Require String.
From stdpp Require Import base option list strings gmap fin_maps sorting.

Local Open Scope Z_scope.

(** ** Go strings as byte sequences *)

(** A Go string is a sequence of bytes.  Text is kept as [string]; the
    functions that scan a string byte by byte work on [list ascii]. *)

Definition chars : string -> list ascii := String.list_ascii_of_string.
Definition text : list ascii -> string := String.string_of_list_ascii.

Definition slash : ascii := "/"%char.

(** [strings.Split(s, sep)] for a separator of one byte. *)
Fixpoint split_on (sep : ascii) (s : list ascii) : list (list ascii) :=
  match s with
  | [] => [[]]
  | c :: s' =>
      if decide (c = sep) then [] :: split_on sep s'
      else match split_on sep s' with
           | [] => [[c]]
           | w :: ws => (c :: w) :: ws
           end
  end.

(** [strings.Cut(s, sep)] for a separator of one byte: what is before
    the first [sep], and what is after it. *)
Fixpoint cut (sep : ascii) (s : list ascii) : list ascii * list ascii :=
  match s with
  | [] => ([], [])
  | c :: s' =>
      if decide (c = sep) then ([], s')
      else let '(before, after) := cut sep s' in (c :: before, after)
  end.

(** ** Package errors and io *)

(** Go error values.  [fmt.Errorf] with the verb [%w] wraps an error;
    [errors.Is] follows the chain of wrapped errors. *)
Inductive error : Type :=
  | io_EOF
  | ErrText (msg : string)
  | ErrWrap (msg : string) (inner : error).

Global Instance error_eq_dec : EqDecision error.
Proof. solve_decision. Defined.

Fixpoint chain_Is (e target : error) : bool :=
  bool_decide (e = target) ||
  match e with
  | ErrWrap _ inner => chain_Is inner target
  | _ => false
  end.

(** [errors.Is(err, target)]; [None] is the nil error. *)
Definition errors_Is (err : option error) (target : error) : bool :=
  match err with
  | None => false
  | Some e => chain_Is e target
  end.

(** ** Package path *)

Module path.

(** [strings.Split(s, "/")]. *)
Definition split : list ascii -> list (list ascii) := split_on slash.

(** [strings.Join(elems, "/")]. *)
Fixpoint unsplit (elems : list (list ascii)) : list ascii :=
  match elems with
  | [] => []
  | [e] => e
  | e :: rest => e ++ slash :: unsplit rest
  end.

Definition dot : list ascii := chars ".".
Definition dotdot : list ascii := chars "..".

(** One step of the scan of [path.Clean] over the elements of the path.
    [out] is the output written so far, as the list of its elements, last
    one first.  An empty element and [.] write nothing; [..] removes the
    last element written unless there is none to remove (the output is
    empty, or holds only the [..] kept at the head of a path that is not
    rooted), in which case a rooted path drops it and another path keeps
    it; any other element is written. *)
Definition clean_step (rooted : bool) (out : list (list ascii))
    (elem : list ascii) : list (list ascii) :=
  if decide (elem = []) then out
  else if decide (elem = dot) then out
  else if decide (elem = dotdot) then
    match out with
    | last :: before =>
        if decide (last = dotdot) then elem :: out else before
    | [] => if rooted then out else [elem]
    end
  else elem :: out.

Definition is_rooted (s : list ascii) : bool :=
  match s with
  | c :: _ => bool_decide (c = slash)
  | [] => false
  end.

Definition clean (s : list ascii) : list ascii :=
  match s with
  | [] => dot
  | _ =>
      let rooted := is_rooted s in
      let out := rev (foldl (clean_step rooted) [] (split s)) in
      if rooted then slash :: unsplit out
      else match out with
           | [] => dot
           | _ => unsplit out
           end
  end.

(** [path.Clean]. *)
Definition Clean (p : string) : string := text (clean (chars p)).

(** The buffer [path.Join] builds before it cleans it. *)
Fixpoint join_buf (buf : list ascii) (elem : list string) : list ascii :=
  match elem with
  | [] => buf
  | e :: rest =>
      match buf, chars e with
      | [], [] => join_buf buf rest
      | [], ce => join_buf ce rest
      | _, ce => join_buf (buf ++ slash :: ce) rest
      end
  end.

(** [path.Join]. *)
Definition Join (elem : list string) : string :=
  if forallb (fun e => bool_decide (e = "")) elem then ""
  else text (clean (join_buf [] elem)).

Definition is_slash (c : ascii) : bool := bool_decide (c = slash).

Fixpoint drop_slashes (s : list ascii) : list ascii :=
  match s with
  | c :: s' => if is_slash c then drop_slashes s' else s
  | [] => []
  end.

Fixpoint take_elem (s : list ascii) : list ascii :=
  match s with
  | c :: s' => if is_slash c then [] else c :: take_elem s'
  | [] => []
  end.

(** [path.Base]: strip the trailing slashes, keep what follows the last
    slash left; the scan runs from the end of the path. *)
Definition base (s : list ascii) : list ascii :=
  match s with
  | [] => dot
  | _ =>
      match rev (take_elem (drop_slashes (rev s))) with
      | [] => [slash]
      | b => b
      end
  end.

Definition Base (p : string) : string := text (base (chars p)).

End path.

(** ** Package net/url *)

(** [url.Values], Go's [map[string][]string]. *)
Abbreviation Values := (gmap string (list string)).

Module url.

Definition in_range (lo hi : nat) (c : ascii) : bool :=
  (lo <=? nat_of_ascii c)%nat && (nat_of_ascii c <=? hi)%nat.

Definition is_alnum (c : ascii) : bool :=
  in_range 48 57 c || in_range 65 90 c || in_range 97 122 c.

(** The bytes [shouldEscape] leaves alone in a query component: letters,
    digits and [-], [_], [.], [~]. *)
Definition unreserved (c : ascii) : bool :=
  is_alnum c
  || bool_decide (c = "-"%char) || bool_decide (c = "_"%char)
  || bool_decide (c = "."%char) || bool_decide (c = "~"%char).

Definition upperhex (n : nat) : ascii :=
  nth n (chars "0123456789ABCDEF") "0"%char.

Fixpoint escape (s : list ascii) : list ascii :=
  match s with
  | [] => []
  | c :: s' =>
      if unreserved c then c :: escape s'
      else if bool_decide (c = " "%char) then "+"%char :: escape s'
      else "%"%char :: upperhex (nat_of_ascii c / 16)
             :: upperhex (nat_of_ascii c mod 16) :: escape s'
  end.

(** [url.QueryEscape]. *)
Definition QueryEscape (s : string) : string := text (escape (chars s)).

Definition key_le (a b : string * list string) : Prop :=
  String.leb a.1 b.1 = true.

Global Instance key_le_dec a b : Decision (key_le a b).
Proof. unfold key_le. apply _. Defined.

Fixpoint encode_key (buf : string) (key : string) (vs : list string) : string :=
  match vs with
  | [] => buf
  | v :: vs' =>
      let buf := if decide (buf = "") then buf else buf +:+ "&" in
      encode_key (buf +:+ key +:+ "=" +:+ QueryEscape v) key vs'
  end.

(** [Values.Encode]: the keys in sorted order, each value as
    [key=value], both escaped, joined by [&]. *)
Definition Encode (v : Values) : string :=
  foldl (fun buf kv => encode_key buf (QueryEscape kv.1) kv.2) ""
        (merge_sort key_le (map_to_list v)).

(** [Values.Set] for every pair of a Go [map[string]string]: each key of
    [query] is bound to the one value [query] gives it, the other keys
    of [v] are kept. *)
Definition SetAll (query : gmap string string) (v : Values) : Values :=
  ((fun x => [x]) <$> query) ∪ v.

Definition unhex (c : ascii) : option nat :=
  if in_range 48 57 c then Some (nat_of_ascii c - 48)%nat
  else if in_range 97 102 c then Some (nat_of_ascii c - 97 + 10)%nat
  else if in_range 65 70 c then Some (nat_of_ascii c - 65 + 10)%nat
  else None.

(** [url.QueryUnescape]; [None] is its error. *)
Fixpoint unescape (s : list ascii) : option (list ascii) :=
  match s with
  | [] => Some []
  | c :: s' =>
      if decide (c = "%"%char) then
        match s' with
        | a :: b :: s'' =>
            match unhex a, unhex b with
            | Some x, Some y =>
                cons (ascii_of_nat (16 * x + y)) <$> unescape s''
            | _, _ => None
            end
        | _ => None
        end
      else if decide (c = "+"%char) then cons " "%char <$> unescape s'
      else cons c <$> unescape s'
  end.

(** One turn of the loop of [parseQuery], on the field [field] cut off
    the query at an ampersand. *)
Definition parse_field (m : Values) (field : list ascii) : Values :=
  if bool_decide (";"%char ∈ field) then m
  else if decide (field = []) then m
  else
    let '(key, value) := cut "="%char field in
    match unescape key, unescape value with
    | Some key, Some value =>
        <[text key := m !!! text key ++ [text value]]> m
    | _, _ => m
    end.

(** [url.ParseQuery], without the error that [URL.Query] discards. *)
Definition ParseQuery (query : string) : Values :=
  match chars query with
  | [] => ∅
  | q => foldl parse_field ∅ (split_on "&"%char q)
  end.

(** A parsed URL.  The program parses references that have neither
    scheme nor host, so only the fields [Path] and [RawQuery] occur. *)
Record URL : Type := mkURL { Path : string; RawQuery : string }.

Definition plain_path_byte (c : ascii) : bool :=
  unreserved c || bool_decide (c = slash).

(** [url.Parse] on the references the program hands to it, the two
    literals ["/"] and ["/download"]: a rooted path of unreserved bytes
    and slashes parses to that path with an empty query.  Every other
    reference lies outside this model and is answered by an error. *)
Definition Parse (rawURL : string) : URL + error :=
  if path.is_rooted (chars rawURL) && forallb plain_path_byte (chars rawURL)
  then inl (mkURL rawURL "")
  else inr (ErrText "net/url: reference outside the modelled fragment").

(** [URL.Query]. *)
Definition Query (u : URL) : Values := ParseQuery (RawQuery u).

(** [URL.String] for a URL with path and query only. *)
Definition String (u : URL) : string :=
  if decide (RawQuery u = "") then Path u
  else Path u +:+ "?" +:+ RawQuery u.

End url.

(** ** Package mime/multipart *)

(** A part of a multipart body: what [FormName] and [FileName] return,
    the bytes that reading the part yields, and the error that ends the
    reading when it is not the end of the part. *)
Record Part : Type := mkPart {
  FormName : string;
  FileName : string;
  content : list Byte.byte;
  readErr : option error
}.

(** What a call of [NextPart] finds in the body: a part, or an error that
    is not the end of the body. *)
Inductive next : Type :=
  | GotPart (p : Part)
  | GotErr (e : error).

(** A [*multipart.Reader]: what the calls of [NextPart] to come will
    find.  When nothing is left [NextPart] returns [io.EOF]. *)
Definition Reader : Type := list next.

Module multipart.

(** [reader.NextPart]: the part (nil on an error), the error, and the
    reader after the call. *)
Definition NextPart (rd : Reader) : option Part * option error * Reader :=
  match rd with
  | [] => (None, Some io_EOF, [])
  | GotPart p :: rest => (Some p, None, rest)
  | GotErr e :: rest => (None, Some e, rest)
  end.

(** [part.Close]: reads the rest of the part and returns nil. *)
Definition Close (p : Part) : option error := None.

End multipart.

(** ** Package net/http: the response *)

(** [http.Header], Go's [map[string][]string] under canonical keys. *)
Abbreviation Header := (gmap string (list string)).

Definition bytes_of (s : string) : list Byte.byte := String.list_byte_of_string s.

Definition newline : string := String "010"%char EmptyString.
Definition dquote : string := String "034"%char EmptyString.

(** The response of one request, as the server's [http.ResponseWriter]
    keeps it.  [header] is the map [Header()] returns, which the handler
    changes; [wroteHeader], [status] and [sentHeader] are set by the first
    [WriteHeader]; [body] is what has been written.  [headerCalls] is not
    part of the response: it records the codes the handler itself passed to
    [WriteHeader], one per call, including the calls the server ignores. *)
Record ResponseWriter : Type := mkResponse {
  header : Header;
  wroteHeader : bool;
  status : Z;
  sentHeader : Header;
  body : list Byte.byte;
  headerCalls : list Z
}.

Module http.

(** An [*http.Request]: its method, its URL, and what
    [r.MultipartReader()] returns for its body. *)
Record Request : Type := mkRequest {
  Method : string;
  URL : url.URL;
  MultipartReader : Reader + error
}.

Definition StatusOK : Z := 200.
Definition StatusNoContent : Z := 204.
Definition StatusFound : Z := 302.
Definition StatusNotModified : Z := 304.
Definition StatusBadRequest : Z := 400.
Definition StatusNotFound : Z := 404.
Definition StatusMethodNotAllowed : Z := 405.
Definition StatusInternalServerError : Z := 500.

Definition MethodGet : string := "GET".
Definition MethodHead : string := "HEAD".
Definition MethodPost : string := "POST".

(** The response the server hands to a handler. *)
Definition newResponse : ResponseWriter :=
  mkResponse ∅ false 0 ∅ [] [].

Definition upper (c : ascii) : ascii :=
  if url.in_range 97 122 c then ascii_of_nat (nat_of_ascii c - 32) else c.
Definition lower (c : ascii) : ascii :=
  if url.in_range 65 90 c then ascii_of_nat (nat_of_ascii c + 32) else c.

Definition validHeaderFieldByte (c : ascii) : bool :=
  url.is_alnum c || bool_decide (c ∈ chars "!#$%&'*+-.^_`|~").

Fixpoint canonical (up : bool) (s : list ascii) : list ascii :=
  match s with
  | [] => []
  | c :: s' =>
      (if up then upper c else lower c)
        :: canonical (bool_decide (c = "-"%char)) s'
  end.

(** [textproto.CanonicalMIMEHeaderKey], applied by [Header.Add] and
    [Header.Set] to the key. *)
Definition CanonicalMIMEHeaderKey (s : string) : string :=
  if forallb validHeaderFieldByte (chars s)
  then text (canonical true (chars s)) else s.

Definition Header_Add (key value : string) (h : Header) : Header :=
  let key := CanonicalMIMEHeaderKey key in
  <[key := h !!! key ++ [value]]> h.

Definition Header_Set (key value : string) (h : Header) : Header :=
  <[CanonicalMIMEHeaderKey key := [value]]> h.

Definition setHeader (f : Header -> Header) (w : ResponseWriter) : ResponseWriter :=
  mkResponse (f (header w)) (wroteHeader w) (status w) (sentHeader w)
             (body w) (headerCalls w).

(** The server's [WriteHeader]: the first call fixes the status and the
    header sent; a later call is ignored (the server logs it as
    superfluous). *)
Definition writeHeader (code : Z) (w : ResponseWriter) : ResponseWriter :=
  if wroteHeader w then w
  else mkResponse (header w) true code (header w) (body w) (headerCalls w).

(** [w.WriteHeader(code)] called by the handler. *)
Definition WriteHeader (code : Z) (w : ResponseWriter) : ResponseWriter :=
  let w := writeHeader code w in
  mkResponse (header w) (wroteHeader w) (status w) (sentHeader w)
             (body w) (headerCalls w ++ [code]).

Definition bodyAllowedForStatus (code : Z) : bool :=
  if decide (100 <= code <= 199) then false
  else if decide (code = StatusNoContent) then false
  else if decide (code = StatusNotModified) then false
  else true.

Definition ErrBodyNotAllowed : error :=
  ErrText "http: request method or response status code does not allow body".

(** [w.Write(data)]: the header goes out with status 200 when none was
    written; a status that allows no body refuses the data. *)
Definition Write (data : list Byte.byte) (w : ResponseWriter)
    : ResponseWriter * option error :=
  let w := writeHeader StatusOK w in
  match data with
  | [] => (w, None)
  | _ =>
      if bodyAllowedForStatus (status w)
      then (mkResponse (header w) (wroteHeader w) (status w) (sentHeader w)
                       (body w ++ data) (headerCalls w), None)
      else (w, Some ErrBodyNotAllowed)
  end.

(** [fmt.Fprintln(w, s)], whose error the callers drop. *)
Definition Fprintln (s : string) (w : ResponseWriter) : ResponseWriter :=
  (Write (bytes_of (s +:+ newline)) w).1.

(** [http.Error]: it sets the two headers, calls [w.WriteHeader(code)]
    and prints the message with [fmt.Fprintln(w, error)], that is, followed
    by a newline. *)
Definition Error (w : ResponseWriter) (msg : string) (code : Z) : ResponseWriter :=
  let w := setHeader (Header_Set "Content-Type" "text/plain; charset=utf-8") w in
  let w := setHeader (Header_Set "X-Content-Type-Options" "nosniff") w in
  let w := WriteHeader code w in
  Fprintln msg w.

(** [http.NotFound]. *)
Definition NotFound (w : ResponseWriter) : ResponseWriter :=
  Error w "404 page not found" StatusNotFound.

Definition StatusText (code : Z) : string :=
  if decide (code = 301) then "Moved Permanently"
  else if decide (code = StatusFound) then "Found"
  else if decide (code = 303) then "See Other"
  else if decide (code = 307) then "Temporary Redirect"
  else if decide (code = 308) then "Permanent Redirect"
  else "".

Fixpoint escapeHTML (s : list ascii) : list ascii :=
  match s with
  | [] => []
  | c :: s' =>
      (if decide (c = "&"%char) then chars "&amp;"
       else if decide (c = "<"%char) then chars "&lt;"
       else if decide (c = ">"%char) then chars "&gt;"
       else if decide (c = "034"%char) then chars "&#34;"
       else if decide (c = "'"%char) then chars "&#39;"
       else [c]) ++ escapeHTML s'
  end.

Definition htmlEscape (s : string) : string := text (escapeHTML (chars s)).

Definition hasSuffixSlash (s : string) : bool :=
  match rev (chars s) with
  | c :: _ => bool_decide (c = slash)
  | [] => false
  end.

(** [http.Redirect] to a target that is a rooted path of ASCII bytes
    without query, as the literal ["/"] the program redirects to: the
    target is cleaned, its trailing slash kept, and sent as [Location];
    only a GET request is answered with a body.  [method] is the method
    of the request. *)
Definition Redirect (w : ResponseWriter) (method : string) (target : string)
    (code : Z) : ResponseWriter :=
  let trailing := hasSuffixSlash target in
  let target := path.Clean target in
  let target :=
    if trailing && negb (hasSuffixSlash target) then target +:+ "/" else target in
  let hadCT := bool_decide (is_Some (header w !! "Content-Type")) in
  let w := setHeader (Header_Set "Location" target) w in
  let w :=
    if negb hadCT && (bool_decide (method = MethodGet) || bool_decide (method = MethodHead))
    then setHeader (Header_Set "Content-Type" "text/html; charset=utf-8") w
    else w in
  let w := WriteHeader code w in
  if negb hadCT && bool_decide (method = MethodGet)
  then Fprintln ("<a href=" +:+ dquote +:+ htmlEscape target +:+ dquote +:+ ">"
                 +:+ StatusText code +:+ "</a>." +:+ newline) w
  else w.

End http.

(** ** Package os: the file system *)

(** A file system without links.  A node is named by the elements of its
    absolute path, the last element first (the key of [/srv/a.txt] is
    [["a.txt"; "srv"]]); the root, of key [[]], is a directory that always
    exists. *)
Inductive node : Type :=
  | File (data : list Byte.byte)
  | Dir.

Abbreviation FileSystem := (gmap (list string) node).

(** What a handler does to the world outside the response, in order. *)
Inductive event : Type :=
  | EvGetwd
  | EvReadDir (name : string)
  | EvOpen (name : string)
  | EvCreate (name : string)
  | EvNextPart.

(** The machine the server runs on: the files, the working directory of
    the process ([None] when it cannot be determined), the lines printed
    by package [log] and the [events] so far. *)
Record World : Type := mkWorld {
  files : FileSystem;
  cwd : option string;
  logs : list string;
  events : list event
}.

Module os.

(** An [fs.DirEntry]: what its methods [Name] and [IsDir] return. *)
Record DirEntry : Type := mkDirEntry { Name : string; IsDir : bool }.

Definition ENOENT : error := ErrText "no such file or directory".
Definition ENOTDIR : error := ErrText "not a directory".
Definition EISDIR : error := ErrText "is a directory".

Definition emit (e : event) (st : World) : World :=
  mkWorld (files st) (cwd st) (logs st) (events st ++ [e]).

Definition setFiles (fs : FileSystem) (st : World) : World :=
  mkWorld fs (cwd st) (logs st) (events st).

(** One element of a path name, walked from the node of key [at_]. *)
Definition walk_step (at_ : list string) (elem : list ascii) : list string :=
  if decide (elem = []) then at_
  else if decide (elem = path.dot) then at_
  else if decide (elem = path.dotdot) then tail at_
  else text elem :: at_.

Definition walk (at_ : list string) (name : list ascii) : list string :=
  foldl walk_step at_ (path.split name).

(** The key a path name leads to: a rooted name is walked from the
    root, another name from the working directory; the empty name
    leads nowhere. *)
Definition resolve (st : World) (name : string) : option (list string) :=
  match chars name with
  | [] => None
  | n =>
      if path.is_rooted n then Some (walk [] n)
      else match cwd st with
           | Some wd => Some (walk (walk [] (chars wd)) n)
           | None => None
           end
  end.

Definition lookup_node (fs : FileSystem) (key : list string) : option node :=
  match key with
  | [] => Some Dir
  | _ => fs !! key
  end.

Definition is_dir (n : node) : bool :=
  match n with Dir => true | File _ => false end.

(** [os.Getwd]. *)
Definition Getwd (st : World) : World * (string + error) :=
  (emit EvGetwd st,
   match cwd st with
   | Some wd => inl wd
   | None => inr ENOENT
   end).

Definition name_le (a b : DirEntry) : Prop := String.leb (Name a) (Name b) = true.

Global Instance name_le_dec a b : Decision (name_le a b).
Proof. unfold name_le. apply _. Defined.

(** The entry of the node [kn] in the directory of key [dir], when the
    node lies directly in it. *)
Definition entry_in (dir : list string) (kn : list string * node) : option DirEntry :=
  match kn.1 with
  | name :: parent =>
      if decide (parent = dir) then Some (mkDirEntry name (is_dir kn.2)) else None
  | [] => None
  end.

Definition entries (fs : FileSystem) (dir : list string) : list DirEntry :=
  merge_sort name_le (omap (entry_in dir) (map_to_list fs)).

(** [os.ReadDir]: the entries of the directory, sorted by file name. *)
Definition ReadDir (st : World) (name : string)
    : World * (list DirEntry + error) :=
  (emit (EvReadDir name) st,
   match resolve st name with
   | None => inr ENOENT
   | Some key =>
       match lookup_node (files st) key with
       | None => inr ENOENT
       | Some (File _) => inr ENOTDIR
       | Some Dir => inl (entries (files st) key)
       end
   end).

(** An open file, [*os.File]: the key of its node. *)
Abbreviation handle := (list string).

(** [os.Open]: opens an existing node, file or directory, for reading. *)
Definition Open (st : World) (name : string) : World * (handle + error) :=
  (emit (EvOpen name) st,
   match resolve st name with
   | None => inr ENOENT
   | Some key =>
       match lookup_node (files st) key with
       | None => inr ENOENT
       | Some _ => inl key
       end
   end).

(** [os.Create]: creates the file, or truncates it when it exists.  It
    fails on a directory, and when the node is not in a directory. *)
Definition Create (st : World) (name : string) : World * (handle + error) :=
  let st := emit (EvCreate name) st in
  match resolve st name with
  | None => (st, inr ENOENT)
  | Some [] => (st, inr EISDIR)
  | Some ((_ :: parent) as key) =>
      match lookup_node (files st) parent with
      | None => (st, inr ENOENT)
      | Some (File _) => (st, inr ENOTDIR)
      | Some Dir =>
          match files st !! key with
          | Some Dir => (st, inr EISDIR)
          | _ => (setFiles (<[key := File []]> (files st)) st, inl key)
          end
      end
  end.

(** [file.Write] at the end of the file. *)
Definition append (st : World) (f : handle) (data : list Byte.byte) : World :=
  match files st !! f with
  | Some (File old) => setFiles (<[f := File (old ++ data)]> (files st)) st
  | _ => st
  end.

(** [file.Close]; it does not fail in this model. *)
Definition Close (f : handle) : option error := None.

End os.

(** [log.Printf], without the time stamp in front of the line. *)
Definition log_Printf (line : string) (st : World) : World :=
  mkWorld (files st) (cwd st) (logs st ++ [line]) (events st).

(** [filepath.Abs] on a system whose separator is the slash. *)
Definition filepath_Abs (st : World) (p : string) : World * (string + error) :=
  if path.is_rooted (chars p) then (st, inl (path.Clean p))
  else
    match os.Getwd st with
    | (st, inr err) => (st, inr err)
    | (st, inl wd) => (st, inl (path.Join [wd; p]))
    end.

(** [io.Copy(w, file)] from an open file to the response.  Reading a
    directory fails; the bytes of a file are written to [w], and nothing
    is written when the file has none. *)
Definition io_Copy_response (st : World) (w : ResponseWriter) (f : os.handle)
    : ResponseWriter * option error :=
  match os.lookup_node (files st) f with
  | Some (File []) => (w, None)
  | Some (File data) => http.Write data w
  | Some Dir => (w, Some os.EISDIR)
  | None => (w, Some os.ENOENT)
  end.

(** [io.Copy(file, part)] from a part to an open file: the bytes read
    from the part are written, then the error of the reading is returned. *)
Definition io_Copy_part (st : World) (f : os.handle) (p : Part)
    : World * option error :=
  (os.append st f (content p), readErr p).

(** ** Handlers *)

(** How a handler leaves: it returns, or it panics (the server then
    recovers, logs the panic and closes the connection). *)
Inductive outcome : Type :=
  | Returned
  | Panicked.

Record result : Type := mkResult {
  world : World;
  response : ResponseWriter;
  exit : outcome
}.

(** [http.HandlerFunc]. *)
Definition HandlerFunc : Type := World -> ResponseWriter -> http.Request -> result.

Definition error_text (e : error) : string :=
  match e with
  | io_EOF => "EOF"
  | ErrText msg => msg
  | ErrWrap msg _ => msg
  end.

(** The body of the deferred functions of the program: the error of a
    [Close], when there is one, is logged. *)
Definition deferredClose (err : option error) (st : World) : World :=
  match err with
  | Some e => log_Printf ("Unable to close file: " +:+ error_text e) st
  | None => st
  end.

Definition getQueryValueOrDefault (query : Values) (key fallback : string) : string :=
  let values := default [] (query !! key) in
  match values with
  | [] => fallback
  | value :: _ => if decide (value = "") then fallback else value
  end.

Record fileEntry : Type := mkFileEntry {
  URL : string;
  Name : string;
  Type_ : string
}.

Definition addQueryToPath (urlPath : string) (query : gmap string string)
    : string + error :=
  match url.Parse urlPath with
  | inr err => inr err
  | inl parsed =>
      let q := url.Query parsed in
      let q := url.SetAll query q in
      let parsed := url.mkURL (url.Path parsed) (url.Encode q) in
      inl (url.String parsed)
  end.

(** The data [handleRootGet] executes the template on. *)
Record tmplData : Type := mkTmplData {
  FullPath : string;
  Files : list fileEntry
}.

Record ByMethod : Type := mkByMethod {
  Get : option HandlerFunc;
  Post : option HandlerFunc
}.

Definition routeByMethod (byMethod : ByMethod) : HandlerFunc :=
  fun st w r =>
    let notAllowed :=
      mkResult st (http.WriteHeader http.StatusMethodNotAllowed w) Returned in
    if decide (http.Method r = http.MethodGet) then
      match Get byMethod with
      | Some get => get st w r
      | None => notAllowed
      end
    else if decide (http.Method r = http.MethodPost) then
      match Post byMethod with
      | Some post => post st w r
      | None => notAllowed
      end
    else notAllowed.

Section Updown.

(** The flags of [main]: the directories [*outputDir] and [*serveDir]. *)
Variables outputDir serveDir : string.

(** The page the template [tmplRoot] renders for its data. *)
Variable tmplRoot : tmplData -> list Byte.byte.

(** [tmplRoot.Execute(w, data)]: the page is written to [w]. *)
Definition tmplRoot_Execute (w : ResponseWriter) (data : tmplData)
    : ResponseWriter * option error :=
  http.Write (tmplRoot data) w.

(** One turn of the loop of [handleRootGet] over the entries. *)
Definition entryOf (servePathRoot : string) (entry : os.DirEntry)
    : fileEntry + error :=
  if os.IsDir entry then
    match addQueryToPath "/" {[ "p" := path.Join [servePathRoot; os.Name entry] ]} with
    | inr err => inr err
    | inl entryURL => inl (mkFileEntry entryURL (os.Name entry +:+ "/") "<DIR>")
    end
  else
    match addQueryToPath "/download" {[ "p" := path.Join [servePathRoot; os.Name entry] ]} with
    | inr err => inr err
    | inl entryURL => inl (mkFileEntry entryURL (os.Name entry) "")
    end.

Fixpoint appendEntries (servePathRoot : string) (fileEntries : list fileEntry)
    (entries : list os.DirEntry) : list fileEntry + error :=
  match entries with
  | [] => inl fileEntries
  | entry :: rest =>
      match entryOf servePathRoot entry with
      | inr err => inr err
      | inl fe => appendEntries servePathRoot (fileEntries ++ [fe]) rest
      end
  end.

Definition internalError (st : World) (w : ResponseWriter) : result :=
  mkResult st (http.Error w "" http.StatusInternalServerError) Returned.

Definition badRequest (st : World) (w : ResponseWriter) : result :=
  mkResult st (http.Error w "" http.StatusBadRequest) Returned.

Definition handleRootGet : HandlerFunc := fun st w r =>
  if decide (url.Path (http.URL r) = "/") then
    let query := url.Query (http.URL r) in
    let servePathRoot := getQueryValueOrDefault query "p" "." in
    match filepath_Abs st (path.Join [serveDir; servePathRoot]) with
    | (st, inr _) => internalError st w
    | (st, inl fullPath) =>
        match os.ReadDir st fullPath with
        | (st, inr _) => internalError st w
        | (st, inl entries) =>
            match addQueryToPath "/" {[ "p" := path.Join [servePathRoot; ".."] ]} with
            | inr _ => internalError st w
            | inl entryURL =>
                let fileEntries := [mkFileEntry entryURL "../" "<DIR>"] in
                match appendEntries servePathRoot fileEntries entries with
                | inr _ => internalError st w
                | inl fileEntries =>
                    let tmplData := mkTmplData fullPath fileEntries in
                    match tmplRoot_Execute w tmplData with
                    | (w, Some _) => internalError st w
                    | (w, None) => mkResult st w Returned
                    end
                end
            end
        end
    end
  else mkResult st (http.NotFound w) Returned.

Definition handleDownloadGet : HandlerFunc := fun st w r =>
  let inputPath := getQueryValueOrDefault (url.Query (http.URL r)) "p" "." in
  let fsPath := path.Join [serveDir; inputPath] in
  match os.Open st fsPath with
  | (st, inr _) => internalError st w
  | (st, inl file) =>
      let w := http.setHeader
                 (http.Header_Add "content-type" "application/octet-stream") w in
      let w := http.setHeader
                 (http.Header_Add "content-disposition"
                    ("attachment; filename=" +:+ dquote +:+ path.Base fsPath +:+ dquote)) w in
      let '(w, err) := io_Copy_response st w file in
      let st := deferredClose (os.Close file) st in
      match err with
      | Some _ => internalError st w
      | None => mkResult st (http.WriteHeader http.StatusNoContent w) Returned
      end
  end.

(** The closure [readPart] of [handleUploadPost].  [part] is [None] for
    the nil pointer: the call [part.FormName()] then panics, and so does
    the deferred [part.Close()], which is the [None] of the result. *)
Definition readPart (st : World) (part : option Part)
    : World * option (bool * option error) :=
  match part with
  | None => (st, None)
  | Some part =>
      if decide (FormName part ≠ "file") then
        (deferredClose (multipart.Close part) st, Some (false, None))
      else
        let fileName := path.Base (FileName part) in
        let outputPath := path.Join [outputDir; fileName] in
        let st := log_Printf ("Receive upload of file name " +:+ FileName part
                              +:+ ". Writing to " +:+ outputPath +:+ ".") st in
        match os.Create st outputPath with
        | (st, inr err) =>
            (deferredClose (multipart.Close part) st, Some (false, Some err))
        | (st, inl file) =>
            let '(st, err) := io_Copy_part st file part in
            let st := deferredClose (os.Close file) st in
            let st := deferredClose (multipart.Close part) st in
            match err with
            | Some err => (st, Some (false, Some err))
            | None => (st, Some (true, None))
            end
        end
  end.

(** The loop of [handleUploadPost] and the redirect that follows it.
    [reader] is the state of the multipart reader.  The loop goes on after
    a part that [readPart] skipped; the reader was then not empty, and the
    last case is there for the match to be complete. *)
Fixpoint readParts (st : World) (w : ResponseWriter) (r : http.Request)
    (reader : Reader) : result :=
  let '(part, err, _) := multipart.NextPart reader in
  let st := os.emit EvNextPart st in
  if errors_Is err io_EOF then badRequest st w
  else
    match readPart st part with
    | (st, None) => mkResult st w Panicked
    | (st, Some (_, Some _)) => badRequest st w
    | (st, Some (true, None)) =>
        mkResult st (http.Redirect w (http.Method r) "/" http.StatusFound) Returned
    | (st, Some (false, None)) =>
        match reader with
        | _ :: reader => readParts st w r reader
        | [] => badRequest st w
        end
    end.

Definition handleUploadPost : HandlerFunc := fun st w r =>
  match http.MultipartReader r with
  | inr err =>
      let w := http.Error w "Unable to read multipart form data" http.StatusBadRequest in
      let st := log_Printf ("Unable to read multipart form data: " +:+ error_text err) st in
      mkResult st w Returned
  | inl reader => readParts st w r reader
  end.

(** The three routes [main] registers. *)
Definition rootRoute : HandlerFunc :=
  routeByMethod (mkByMethod (Some handleRootGet) None).
Definition uploadRoute : HandlerFunc :=
  routeByMethod (mkByMethod None (Some handleUploadPost)).
Definition downloadRoute : HandlerFunc :=
  routeByMethod (mkByMethod (Some handleDownloadGet) None).

End Updown.

(** ** The minimal variant, [main.go] *)

(** The second program of the repository has the same router, an upload
    handler that discards the part it reads, and a root handler that
    renders a fixed page. *)
Module Minimal.

(** [page] is what the template of this variant renders. *)
Definition handleRootGet (page : list Byte.byte) : HandlerFunc := fun st w r =>
  if decide (url.Path (http.URL r) = "/") then
    match http.Write page w with
    | (w, Some _) =>
        mkResult st (http.Error w "" http.StatusInternalServerError) Returned
    | (w, None) => mkResult st w Returned
    end
  else mkResult st (http.NotFound w) Returned.

Definition readPart (st : World) (part : option Part)
    : World * option (bool * option error) :=
  match part with
  | None => (st, None)
  | Some part =>
      if decide (FormName part ≠ "file") then
        (deferredClose (multipart.Close part) st, Some (false, None))
      else
        let err := readErr part in
        let st := deferredClose (multipart.Close part) st in
        match err with
        | Some err => (st, Some (false, Some err))
        | None => (st, Some (true, None))
        end
  end.

Fixpoint readParts (st : World) (w : ResponseWriter) (r : http.Request)
    (reader : Reader) : result :=
  let '(part, err, _) := multipart.NextPart reader in
  let st := os.emit EvNextPart st in
  if errors_Is err io_EOF then
    mkResult st (http.Error w "" http.StatusBadRequest) Returned
  else
    match readPart st part with
    | (st, None) => mkResult st w Panicked
    | (st, Some (_, Some _)) =>
        mkResult st (http.Error w "" http.StatusBadRequest) Returned
    | (st, Some (true, None)) =>
        mkResult st (http.Redirect w (http.Method r) "/" http.StatusFound) Returned
    | (st, Some (false, None)) =>
        match reader with
        | _ :: reader => readParts st w r reader
        | [] => mkResult st (http.Error w "" http.StatusBadRequest) Returned
        end
    end.

Definition handleUploadPost : HandlerFunc := fun st w r =>
  match http.MultipartReader r with
  | inr err =>
      let w := http.Error w "Unable to read multipart form data" http.StatusBadRequest in
      let st := log_Printf ("Unable to read multipart form data: " +:+ error_text err) st in
      mkResult st w Returned
  | inl reader => readParts st w r reader
  end.

End Minimal.

(** ** A machine to run the handlers on *)

(** A small file system: the directory [/srv] holds the file [a.txt],
    and the directory [docs] with the empty file [b.txt]. *)
Definition demo_files : FileSystem :=
  {[ ["srv"] := Dir;
     ["a.txt"; "srv"] := File (bytes_of "hi");
     ["docs"; "srv"] := Dir;
     ["b.txt"; "docs"; "srv"] := File [] ]}.

Definition demo : World := mkWorld demo_files (Some "/srv") [] [].

(** A page that shows the data it is given, in place of [tmplRoot]. *)
Definition demo_page (d : tmplData) : list Byte.byte :=
  bytes_of (FullPath d +:+ newline
            +:+ foldr (fun e rest =>
                         URL e +:+ " " +:+ Name e +:+ " " +:+ Type_ e +:+ newline +:+ rest)
                      "" (Files d)).

Definition demo_get (p query : string) : http.Request :=
  http.mkRequest "GET" (url.mkURL p query)
                 (inr (ErrText "request Content-Type isn't multipart/form-data")).

Definition demo_post (body : Reader + error) : http.Request :=
  http.mkRequest "POST" (url.mkURL "/upload" "") body.

(** The parts a browser sends for a text field and for the file field
    of the upload form. *)
Definition part_note : Part := mkPart "note" "" (bytes_of "n") None.
Definition part_hello : Part := mkPart "file" "hello.txt" (bytes_of "hello") None.

Definition notMultipart : error :=
  ErrText "request Content-Type isn't multipart/form-data".

(** A PUT request, which no route accepts. *)
Definition demo_put : http.Request :=
  http.mkRequest "PUT" (url.mkURL "/upload" "") (inr notMultipart).

(** The error [NextPart] returns for a header line without a colon. *)
Definition malformedHeader : error := ErrText "malformed MIME header line: bad".

(** The part a browser sends for the file field when no file was
    chosen: the field name [file] and an empty file name. *)
Definition part_unnamed : Part := mkPart "file" "" [] None.

(** ** The vocabulary of the properties *)

(** The navigation path of a request: the value the two GET handlers
    compute from the query first of all. *)
Definition navigationPath (r : http.Request) : string :=
  getQueryValueOrDefault (url.Query (http.URL r)) "p" ".".

(** An element that names a child: not empty, not [.] or [..], and
    without slash. *)
Definition plain (b : list ascii) : Prop :=
  b <> [] /\ b <> path.dot /\ b <> path.dotdot /\ slash ∉ b.

(** An element that [path.Clean] keeps: not empty, not [.], without
    slash. *)
Definition kept (e : list ascii) : Prop := e <> [] /\ e <> path.dot /\ slash ∉ e.

(** Every node of the file system lies in a directory. *)
Definition wellFormed (fs : FileSystem) : Prop :=
  forall x parent n, fs !! (x :: parent) = Some n ->
    os.lookup_node fs parent = Some Dir.

(** The name leads to a directory. *)
Definition isDirectory (st : World) (name : string) : Prop :=
  exists key, os.resolve st name = Some key /\
              os.lookup_node (files st) key = Some Dir.

(** A part found by [NextPart] whose form field name is not [file]. *)
Definition otherField (n : next) : Prop :=
  match n with
  | GotPart p => FormName p <> "file"
  | GotErr _ => False
  end.

(** The world after [k] calls of [NextPart] that changed nothing else. *)
Definition afterParts (k : nat) (st : World) : World :=
  mkWorld (files st) (cwd st) (logs st) (events st ++ replicate k EvNextPart).

(** What [os.Create] needs to succeed on the node of key [f]. *)
Definition creatable (st : World) (name : string) (f : os.handle) : Prop :=
  os.resolve st name = Some f /\
  (exists x parent,
     f = x :: parent /\ os.lookup_node (files st) parent = Some Dir) /\
  files st !! f <> Some Dir.

(** The node [os.Open] finds under a name, if any. *)
Definition nodeAt (st : World) (name : string) : option node :=
  os.resolve st name ≫= os.lookup_node (files st).

(** The header of a download before the copy, for the value [disposition]
    of [Content-Disposition]. *)
Definition attachmentHeader (disposition : string) : Header :=
  {[ "Content-Type" := ["application/octet-stream"];
     "Content-Disposition" := [disposition] ]}.

(** The value of [Content-Disposition] for the file of path [fsPath]. *)
Definition disposition (fsPath : string) : string :=
  "attachment; filename=" +:+ dquote +:+ path.Base fsPath +:+ dquote.

(** The line [readPart] logs when it receives the file part [p]. *)
Definition receiveLine (outputDir : string) (p : Part) : string :=
  "Receive upload of file name " +:+ FileName p +:+ ". Writing to "
  +:+ path.Join [outputDir; path.Base (FileName p)] +:+ ".".

(** The parent entry, and the entry of a child of the directory, for the
    navigation path [p]. *)
Definition parentEntry (p : string) : fileEntry :=
  mkFileEntry ("/?p=" +:+ url.QueryEscape (path.Join [p; ".."])) "../" "<DIR>".

Definition childEntry (p : string) (child : os.DirEntry) : fileEntry :=
  if os.IsDir child
  then mkFileEntry ("/?p=" +:+ url.QueryEscape (path.Join [p; os.Name child]))
                   (os.Name child +:+ "/") "<DIR>"
  else mkFileEntry ("/download?p=" +:+ url.QueryEscape (path.Join [p; os.Name child]))
                   (os.Name child) "".

Definition listingOf (p : string) (children : list os.DirEntry) : list fileEntry :=
  parentEntry p :: map (childEntry p) children.

(** The three bodies an error response can have: the newline alone that
    [http.Error] writes for the empty message, and the two fixed
    messages. *)
Definition errorBodies : list (list Byte.byte) :=
  [ bytes_of newline;
    bytes_of ("Unable to read multipart form data" +:+ newline);
    bytes_of ("404 page not found" +:+ newline) ].

(** A response whose status reports an error. *)
Definition isError (w : ResponseWriter) : Prop := 400 <= status w.

(** ** The vocabulary of the further properties *)

(** The bytes that separate the fields and the pairs of a query. *)
Definition separator (c : ascii) : bool :=
  bool_decide (c = "&"%char) || bool_decide (c = ";"%char)
  || bool_decide (c = "="%char).

(** The request a client sends when it follows the link [link]: a GET
    whose URL has the part of the link before the first question mark as
    path and the part after it as raw query. *)
Definition requestOf (link : string) : http.Request :=
  let '(p, q) := cut "?"%char (chars link) in
  http.mkRequest "GET" (url.mkURL (text p) (text q)) (inr notMultipart).

(** The working directory, when known, is an absolute path. *)
Definition absoluteCwd (st : World) : Prop :=
  forall wd, cwd st = Some wd -> path.is_rooted (chars wd) = true.

(** The outputs of the scan of [path.Clean]: elements that are kept, the
    [..] all at the head of the path, and none in a rooted path. *)
Fixpoint settled (rooted : bool) (out : list (list ascii)) : Prop :=
  match out with
  | [] => True
  | e :: before =>
      kept e /\ settled rooted before /\
      (e = path.dotdot -> rooted = false /\ Forall (fun x => x = path.dotdot) before)
  end.

(** ** Further requests *)

(** A file part whose file name climbs out of the directory it is sent
    to. *)
Definition part_climbing : Part :=
  mkPart "file" "../../etc/passwd" (bytes_of "x") None.

(** A file part whose body breaks off after two bytes. *)
Definition unexpectedEOF : error := ErrText "unexpected EOF".
Definition part_cut : Part :=
  mkPart "file" "hello.txt" (bytes_of "he") (Some unexpectedEOF).

(** The error of [NextPart] for a body that ends before its closing
    boundary: [io.EOF], wrapped. *)
Definition truncatedBody : error := ErrWrap "multipart: NextPart: EOF" io_EOF.

(** A second upload under the file name of [part_hello], sent with a
    directory in front of it. *)
Definition part_again : Part := mkPart "file" "up/hello.txt" (bytes_of "bye") None.

(** * Properties *)

(** ** The model of the library at work *)

Example Clean_ex1 : path.Clean "/srv/files/./a//b/../c/" = "/srv/files/a/c".
Proof. reflexivity. Qed.
Example Clean_ex2 : path.Clean "../../a/../.." = "../../..".
Proof. reflexivity. Qed.
Example Clean_ex3 : path.Clean "/../a/../.." = "/".
Proof. reflexivity. Qed.
Example Clean_ex4 : path.Clean "a/.." = ".".
Proof. reflexivity. Qed.
Example Join_ex1 : path.Join ["/srv"; "."] = "/srv".
Proof. reflexivity. Qed.
Example Join_ex2 : path.Join [""; ""] = "".
Proof. reflexivity. Qed.
Example Join_ex3 : path.Join ["."; "a.txt"] = "a.txt".
Proof. reflexivity. Qed.
Example Join_ex4 : path.Join [""; "../x"] = "../x".
Proof. reflexivity. Qed.
Example Base_ex1 : path.Base "" = ".".
Proof. reflexivity. Qed.
Example Base_ex2 : path.Base "///" = "/".
Proof. reflexivity. Qed.
Example Base_ex3 : path.Base "/a/b.txt//" = "b.txt".
Proof. reflexivity. Qed.

Example QueryEscape_ex1 : url.QueryEscape "a b/c.txt" = "a+b%2Fc.txt".
Proof. reflexivity. Qed.
Example Encode_ex1 :
  url.Encode (url.SetAll {[ "p" := "docs/.." ]} ∅) = "p=docs%2F..".
Proof. vm_compute. reflexivity. Qed.
Example Encode_ex2 :
  url.Encode {[ "b" := ["1"; "2"]; "a" := ["x y"] ]} = "a=x+y&b=1&b=2".
Proof. vm_compute. reflexivity. Qed.
Example ParseQuery_ex1 :
  url.ParseQuery "p=docs%2Fa+b&p=other&q=1;2&=&x" =
    {[ "p" := ["docs/a b"; "other"]; "" := [""]; "x" := [""] ]}.
Proof. vm_compute. reflexivity. Qed.
Example ParseQuery_ex2 : url.ParseQuery "p=%zz&p=" = {[ "p" := [""] ]}.
Proof. vm_compute. reflexivity. Qed.

Example Error_ex1 :
  let w := http.Error http.newResponse "" 500 in
  status w = 500 /\ body w = bytes_of newline /\
  sentHeader w !! "Content-Type" = Some ["text/plain; charset=utf-8"].
Proof. vm_compute. done. Qed.
Example Redirect_ex1 :
  let w := http.Redirect http.newResponse "POST" "/" 302 in
  status w = 302 /\ body w = [] /\ sentHeader w = {[ "Location" := ["/"] ]}.
Proof. vm_compute. done. Qed.
Example Header_ex1 :
  http.Header_Add "content-type" "application/octet-stream" ∅
  = {[ "Content-Type" := ["application/octet-stream"] ]}.
Proof. vm_compute. done. Qed.

(** ** The method router *)

(** C7. The router invokes the GET handler on a GET request when one is
    set, the POST handler on a POST request when one is set, and in every
    other case invokes no handler: it leaves the world alone and writes
    status 405, which on the response of a new request gives an empty
    body. *)
Theorem routeByMethod_dispatch (byMethod : ByMethod) (st : World)
    (w : ResponseWriter) (r : http.Request) :
  (forall get, http.Method r = "GET" -> Get byMethod = Some get ->
     routeByMethod byMethod st w r = get st w r) /\
  (forall post, http.Method r = "POST" -> Post byMethod = Some post ->
     routeByMethod byMethod st w r = post st w r) /\
  ((http.Method r <> "GET" \/ Get byMethod = None) ->
   (http.Method r <> "POST" \/ Post byMethod = None) ->
     routeByMethod byMethod st w r = mkResult st (http.WriteHeader 405 w) Returned /\
     (w = http.newResponse ->
        status (response (routeByMethod byMethod st w r)) = 405 /\
        body (response (routeByMethod byMethod st w r)) = [])).
Proof.
  unfold routeByMethod, http.MethodGet, http.MethodPost.
  split; [|split].
  - intros get Hm Hget. rewrite Hm, Hget. reflexivity.
  - intros post Hm Hpost. rewrite Hm, Hpost. reflexivity.
  - intros Hget Hpost.
    assert (Hres :
      (if decide (http.Method r = "GET")
       then match Get byMethod with
            | Some get => get st w r
            | None => mkResult st (http.WriteHeader http.StatusMethodNotAllowed w) Returned
            end
       else if decide (http.Method r = "POST")
            then match Post byMethod with
                 | Some post => post st w r
                 | None => mkResult st (http.WriteHeader http.StatusMethodNotAllowed w) Returned
                 end
            else mkResult st (http.WriteHeader http.StatusMethodNotAllowed w) Returned)
      = mkResult st (http.WriteHeader 405 w) Returned).
    { destruct (decide (http.Method r = "GET")) as [Hg|Hg].
      - destruct Hget as [Hne|Hnone]; [contradiction|]. rewrite Hnone. reflexivity.
      - destruct (decide (http.Method r = "POST")) as [Hp|Hp]; [|reflexivity].
        destruct Hpost as [Hne|Hnone]; [contradiction|]. rewrite Hnone. reflexivity. }
    rewrite Hres. split; [reflexivity|].
    intros ->. split; reflexivity.
Qed.

(** ** The navigation path *)

Lemma getQueryValueOrDefault_absent (query : Values) (key fallback : string) :
  query !! key = None -> getQueryValueOrDefault query key fallback = fallback.
Proof. intros H. unfold getQueryValueOrDefault. rewrite H. reflexivity. Qed.

Lemma getQueryValueOrDefault_first (query : Values) (key fallback v : string)
    (vs : list string) :
  query !! key = Some (v :: vs) ->
  getQueryValueOrDefault query key fallback = if decide (v = "") then fallback else v.
Proof. intros H. unfold getQueryValueOrDefault. rewrite H. reflexivity. Qed.

(** ** Facts about paths *)

Section PathFacts.

Implicit Types (s d e b : list ascii) (l : list (list ascii)).

Lemma split_nonempty s : path.split s <> [].
Proof.
  unfold path.split. destruct s as [|c s]; simpl; [done|].
  destruct (decide (c = slash)); [done|]. by destruct (split_on slash s).
Qed.

Lemma split_app d e :
  path.split (d ++ slash :: e) = path.split d ++ path.split e.
Proof.
  unfold path.split. induction d as [|c d IH]; simpl.
  - reflexivity.
  - destruct (decide (c = slash)); [by rewrite IH|].
    rewrite IH. pose proof (split_nonempty d) as Hne. unfold path.split in Hne.
    by destruct (split_on slash d).
Qed.

Lemma split_plain b : slash ∉ b -> path.split b = [b].
Proof.
  unfold path.split. induction b as [|c b IH]; intros Hb; simpl; [done|].
  apply not_elem_of_cons in Hb as [Hc Hb].
  rewrite decide_False by done. by rewrite IH.
Qed.

Lemma split_no_slash s : Forall (fun e => slash ∉ e) (path.split s).
Proof.
  unfold path.split. induction s as [|c s IH]; simpl.
  - repeat constructor. apply not_elem_of_nil.
  - destruct (decide (c = slash)).
    + constructor; [apply not_elem_of_nil|done].
    + destruct (split_on slash s) as [|w ws].
      { constructor; [|constructor].
        apply not_elem_of_cons. split; [congruence|apply not_elem_of_nil]. }
      inversion IH; subst. constructor; [|done].
      apply not_elem_of_cons. split; [congruence|done].
Qed.

Lemma unsplit_snoc l b :
  path.unsplit (l ++ [b])
  = match l with [] => b | _ => path.unsplit l ++ slash :: b end.
Proof.
  induction l as [|e l IH]; [done|].
  destruct l as [|e' l]; [done|].
  change (path.unsplit ((e :: e' :: l) ++ [b]))
    with (e ++ slash :: path.unsplit ((e' :: l) ++ [b])).
  rewrite IH. change (path.unsplit (e :: e' :: l))
    with (e ++ slash :: path.unsplit (e' :: l)).
  by rewrite <- app_assoc.
Qed.

Lemma take_elem_no_slash s : slash ∉ path.take_elem s.
Proof.
  induction s as [|c s IH]; simpl; [apply not_elem_of_nil|].
  unfold path.is_slash. destruct (bool_decide_reflect (c = slash)).
  - apply not_elem_of_nil.
  - apply not_elem_of_cons. split; [congruence|done].
Qed.

Lemma take_elem_app b s :
  slash ∉ b -> (s = [] \/ exists s', s = slash :: s') ->
  path.take_elem (b ++ s) = b.
Proof.
  intros Hb Hs. induction b as [|c b IH]; simpl.
  - by destruct Hs as [->|[s' ->]].
  - apply not_elem_of_cons in Hb as [Hc Hb].
    unfold path.is_slash. rewrite bool_decide_eq_false_2 by congruence.
    by rewrite IH.
Qed.

Lemma base_suffix pre b :
  slash ∉ b -> b <> [] -> (pre = [] \/ exists pre', pre = pre' ++ [slash]) ->
  path.base (pre ++ b) = b.
Proof.
  intros Hb Hne Hpre. unfold path.base.
  destruct (pre ++ b) as [|c s] eqn:E.
  { by apply app_eq_nil in E as [_ ->]. }
  rewrite <- E, rev_app_distr.
  assert (Hd : path.drop_slashes (rev b ++ rev pre) = rev b ++ rev pre).
  { destruct (rev b) as [|x xs] eqn:Ex.
    - apply (f_equal (@rev _)) in Ex. rewrite rev_involutive in Ex. done.
    - simpl. unfold path.is_slash. rewrite bool_decide_eq_false_2; [done|].
      intros ->. apply Hb. apply list_elem_of_In, in_rev. rewrite Ex. by left. }
  rewrite Hd, take_elem_app.
  - rewrite rev_involutive. by destruct b.
  - intros Hin. apply Hb. by apply list_elem_of_In, in_rev, list_elem_of_In.
  - destruct Hpre as [->|[pre' ->]]; [by left|right].
    rewrite rev_app_distr. simpl. eauto.
Qed.

Lemma chars_text s : chars (text s) = s.
Proof. apply String.list_ascii_of_string_of_list_ascii. Qed.

Lemma text_chars (x : string) : text (chars x) = x.
Proof. apply String.string_of_list_ascii_of_string. Qed.

Lemma clean_step_plain r acc b :
  plain b -> path.clean_step r acc b = b :: acc.
Proof.
  intros (H1 & H2 & H3 & _). unfold path.clean_step.
  by rewrite !decide_False.
Qed.

Lemma clean_last s l b :
  path.split s = l ++ [b] -> plain b ->
  exists pre, path.clean s = pre ++ b /\
              (pre = [] \/ exists pre', pre = pre' ++ [slash]).
Proof.
  intros Hs Hb. unfold path.clean.
  destruct s as [|c s].
  { destruct Hb as (Hne & _). destruct l as [|x l]; simpl in Hs.
    - injection Hs as <-. done.
    - injection Hs as _ Hs. by destruct l. }
  rewrite Hs, foldl_app. simpl. rewrite clean_step_plain by done.
  simpl. set (ys := rev (foldl _ [] l)).
  rewrite unsplit_snoc.
  destruct (bool_decide (c = slash)).
  - destruct ys as [|y ys'].
    + exists [slash]. split; [done|]. right. by exists [].
    + exists (slash :: path.unsplit (y :: ys') ++ [slash]). split.
      * simpl. by rewrite <- app_assoc.
      * right. by exists (slash :: path.unsplit (y :: ys')).
  - destruct ys as [|y ys']; simpl.
    + exists []. auto.
    + exists (path.unsplit (y :: ys') ++ [slash]). split.
      * by rewrite <- app_assoc.
      * right. eauto.
Qed.

Lemma base_clean_join d b :
  plain b -> path.base (path.clean (d ++ slash :: b)) = b.
Proof.
  intros Hb. pose proof Hb as (Hne & _ & _ & Hs).
  destruct (clean_last (d ++ slash :: b) (path.split d) b) as (pre & -> & Hpre);
    [|done|by apply base_suffix].
  by rewrite split_app, (split_plain b).
Qed.

Lemma base_clean_plain b : plain b -> path.base (path.clean b) = b.
Proof.
  intros Hb. pose proof Hb as (Hne & _ & _ & Hs).
  destruct (clean_last b [] b) as (pre & -> & Hpre);
    [|done|by apply base_suffix].
  by rewrite (split_plain b).
Qed.

Lemma chars_nonempty (x : string) : x <> "" -> chars x <> [].
Proof. intros Hx Hc. apply Hx. by rewrite <- (text_chars x), Hc. Qed.

Lemma Join_dir (dir name : string) :
  dir <> "" ->
  path.Join [dir; name] = text (path.clean (chars dir ++ slash :: chars name)).
Proof.
  intros Hd. unfold path.Join. simpl.
  rewrite (bool_decide_eq_false_2 _ Hd). simpl.
  apply chars_nonempty in Hd. by destruct (chars dir).
Qed.

Lemma Join_no_dir (name : string) :
  name <> "" -> path.Join [""; name] = text (path.clean (chars name)).
Proof.
  intros Hn. unfold path.Join. simpl.
  rewrite (bool_decide_eq_false_2 _ Hn). simpl.
  apply chars_nonempty in Hn. by destruct (chars name).
Qed.

(** The base of a joined path is the element joined last, when that
    element names a child. *)
Lemma Base_Join (dir name : string) :
  plain (chars name) -> path.Base (path.Join [dir; name]) = name.
Proof.
  intros Hb. pose proof Hb as (Hne & _).
  assert (Hname : name <> "") by (intros ->; by apply Hne).
  unfold path.Base. destruct (decide (dir = "")) as [->|Hd].
  - rewrite Join_no_dir, chars_text, base_clean_plain by done. apply text_chars.
  - rewrite Join_dir, chars_text, base_clean_join by done. apply text_chars.
Qed.

Lemma clean_step_kept r acc c :
  Forall kept acc -> slash ∉ c -> Forall kept (path.clean_step r acc c).
Proof.
  intros Hacc Hc. unfold path.clean_step.
  destruct (decide (c = [])); [done|].
  destruct (decide (c = path.dot)); [done|].
  assert (Hk : kept c) by done.
  destruct (decide (c = path.dotdot)).
  - destruct acc as [|last before].
    + destruct r; [done|]. by constructor.
    + destruct (decide (last = path.dotdot)).
      * by constructor.
      * by inversion Hacc.
  - by constructor.
Qed.

Lemma foldl_clean_kept r comps :
  forall acc, Forall kept acc -> Forall (fun e => slash ∉ e) comps ->
  Forall kept (foldl (path.clean_step r) acc comps).
Proof.
  induction comps as [|c comps IH]; intros acc Hacc Hc; [done|].
  inversion Hc; subst. simpl. apply IH; [|done]. by apply clean_step_kept.
Qed.

Lemma walk_rev_cons (at_ : list string) acc e :
  foldl os.walk_step at_ (rev (e :: acc))
  = os.walk_step (foldl os.walk_step at_ (rev acc)) e.
Proof. simpl. by rewrite foldl_app. Qed.

Lemma walk_step_kept (at_ : list string) e :
  kept e -> e <> path.dotdot -> os.walk_step at_ e = text e :: at_.
Proof.
  intros (H1 & H2 & _) H3. unfold os.walk_step. by rewrite !decide_False.
Qed.

(** Walking the elements [path.Clean] keeps leads where walking all
    the elements leads. *)
Lemma clean_walk r (at_ : list string) comps :
  (r = true -> at_ = []) ->
  Forall (fun e => slash ∉ e) comps ->
  forall acc, Forall kept acc ->
  foldl os.walk_step at_ (rev (foldl (path.clean_step r) acc comps))
  = foldl os.walk_step (foldl os.walk_step at_ (rev acc)) comps.
Proof.
  intros Hr Hcomps.
  induction Hcomps as [|c comps Hc Hcomps IH]; intros acc Hacc; [done|].
  simpl. rewrite IH by (by apply clean_step_kept). f_equal.
  unfold path.clean_step.
  destruct (decide (c = [])) as [->|?]; [done|].
  destruct (decide (c = path.dot)) as [->|?]; [done|].
  destruct (decide (c = path.dotdot)) as [->|?]; [|apply walk_rev_cons].
  destruct acc as [|last before].
  - destruct r; [|done]. by rewrite Hr.
  - destruct (decide (last = path.dotdot)); [apply walk_rev_cons|].
    inversion Hacc; subst.
    rewrite walk_rev_cons, (walk_step_kept _ last) by done. reflexivity.
Qed.

Lemma split_unsplit l :
  Forall (fun e => slash ∉ e) l -> l <> [] -> path.split (path.unsplit l) = l.
Proof.
  induction 1 as [|e l He Hl IH]; [done|intros _].
  destruct l as [|e' l]; [by apply split_plain|].
  change (path.unsplit (e :: e' :: l)) with (e ++ slash :: path.unsplit (e' :: l)).
  rewrite split_app, IH, (split_plain e) by done. reflexivity.
Qed.

Lemma walk_unsplit (at_ : list string) l :
  Forall (fun e => slash ∉ e) l ->
  os.walk at_ (path.unsplit l) = foldl os.walk_step at_ l.
Proof.
  intros Hl. unfold os.walk. destruct l as [|e l]; [done|].
  by rewrite split_unsplit.
Qed.

Lemma kept_no_slash l : Forall kept l -> Forall (fun e => slash ∉ e) l.
Proof. intros Hl. eapply Forall_impl; [exact Hl|]. by intros e (_ & _ & ?). Qed.

Lemma walk_clean (at_ : list string) s :
  s <> [] -> (path.is_rooted s = true -> at_ = []) ->
  os.walk at_ (path.clean s) = os.walk at_ s.
Proof.
  intros Hs Hr. unfold path.clean. destruct s as [|c s]; [done|].
  set (r := path.is_rooted (c :: s)) in *.
  pose proof (foldl_clean_kept r (path.split (c :: s)) [] (Forall_nil_2 _)
                (split_no_slash (c :: s))) as Hk.
  pose proof (clean_walk r at_ (path.split (c :: s)) Hr
                (split_no_slash (c :: s)) [] (Forall_nil_2 _)) as Hw.
  simpl in Hw. cbv zeta.
  set (out := rev (foldl (path.clean_step r) [] (path.split (c :: s)))) in *.
  assert (Hout : Forall (fun e => slash ∉ e) out).
  { apply kept_no_slash. subst out. by apply Forall_rev. }
  fold (os.walk at_ (c :: s)) in Hw. rewrite <- Hw.
  destruct r.
  - change (slash :: path.unsplit out) with ([] ++ slash :: path.unsplit out).
    unfold os.walk at 1. rewrite split_app, foldl_app. simpl.
    by apply walk_unsplit.
  - destruct out as [|e out']; [done|]. by apply walk_unsplit.
Qed.

Lemma clean_rooted s :
  s <> [] ->
  path.clean s <> [] /\ path.is_rooted (path.clean s) = path.is_rooted s.
Proof.
  intros Hs. unfold path.clean. destruct s as [|c s]; [done|].
  set (r := path.is_rooted (c :: s)).
  pose proof (foldl_clean_kept r (path.split (c :: s)) [] (Forall_nil_2 _)
                (split_no_slash (c :: s))) as Hk.
  apply Forall_rev in Hk. cbv zeta.
  destruct (rev (foldl (path.clean_step r) [] (path.split (c :: s))))
    as [|e out].
  - by destruct r.
  - destruct r; [done|].
    inversion Hk as [|? ? (Hne & _ & Hsl) _]; subst.
    destruct e as [|x e]; [done|].
    assert (Hx : x <> slash).
    { intros ->. apply Hsl. by left. }
    destruct out; simpl; rewrite bool_decide_eq_false_2; done.
Qed.

Lemma resolve_text (st : World) s :
  s <> [] ->
  os.resolve st (text s)
  = if path.is_rooted s then Some (os.walk [] s)
    else (fun wd => os.walk (os.walk [] (chars wd)) s) <$> cwd st.
Proof.
  intros Hs. unfold os.resolve. rewrite chars_text.
  destruct s as [|c s]; [done|]. by destruct (cwd st).
Qed.

Lemma resolve_clean (st : World) s :
  s <> [] -> os.resolve st (text (path.clean s)) = os.resolve st (text s).
Proof.
  intros Hs. destruct (clean_rooted s Hs) as [Hne Hr].
  rewrite !resolve_text, Hr by done.
  destruct (path.is_rooted s) eqn:E.
  - by rewrite walk_clean.
  - destruct (cwd st); [|done]. simpl.
    rewrite walk_clean; [done|done|congruence].
Qed.

Lemma walk_join (at_ : list string) d e :
  os.walk at_ (d ++ slash :: e) = os.walk (os.walk at_ d) e.
Proof. unfold os.walk. by rewrite split_app, foldl_app. Qed.

(** Where a joined path leads: to where its second element leads from
    the node of the first. *)
Lemma resolve_Join (st : World) (dir name : string) (key : list string) :
  os.resolve st dir = Some key ->
  os.resolve st (path.Join [dir; name]) = Some (os.walk key (chars name)).
Proof.
  intros Hdir.
  assert (Hd : dir <> "") by (by intros ->).
  apply chars_nonempty in Hd as Hc.
  rewrite <- (text_chars dir), resolve_text in Hdir by done.
  rewrite Join_dir, resolve_clean, resolve_text by (done || by destruct (chars dir)).
  assert (Hr : path.is_rooted (chars dir ++ slash :: chars name)
               = path.is_rooted (chars dir)) by (by destruct (chars dir)).
  rewrite Hr. destruct (path.is_rooted (chars dir)).
  - injection Hdir as <-. by rewrite walk_join.
  - destruct (cwd st); [|done]. injection Hdir as <-. simpl. by rewrite walk_join.
Qed.

End PathFacts.

Lemma base_cases (s : list ascii) :
  plain (path.base s) \/ path.base s = path.dot \/
  path.base s = path.dotdot \/ path.base s = [slash].
Proof.
  unfold path.base. destruct s as [|c s]; [auto|].
  pose proof (take_elem_no_slash (path.drop_slashes (rev (c :: s)))) as Hs.
  destruct (rev (path.take_elem (path.drop_slashes (rev (c :: s)))))
    as [|x b] eqn:E; [auto|].
  destruct (decide (x :: b = path.dot)); [auto|].
  destruct (decide (x :: b = path.dotdot)); [auto|].
  left. repeat split; try done.
  intros Hin. apply Hs. apply list_elem_of_In, in_rev. rewrite E.
  by apply list_elem_of_In.
Qed.

(** ** The upload loop *)

Lemma afterParts_0 (st : World) : afterParts 0 st = st.
Proof. destruct st. unfold afterParts. simpl. by rewrite app_nil_r. Qed.

Lemma afterParts_S (k : nat) (st : World) :
  afterParts k (os.emit EvNextPart st) = afterParts (S k) st.
Proof. unfold afterParts, os.emit. simpl. by rewrite <- app_assoc. Qed.

Lemma afterParts_emit (k : nat) (st : World) :
  os.emit EvNextPart (afterParts k st) = afterParts (S k) st.
Proof.
  unfold afterParts, os.emit. simpl. f_equal.
  rewrite <- app_assoc. f_equal.
  induction k as [|k IH]; simpl; [reflexivity|]. by rewrite IH.
Qed.

Lemma Create_ok (st : World) (name : string) (f : os.handle) :
  creatable st name f ->
  os.Create st name =
    (os.setFiles (<[f := File []]> (files st)) (os.emit (EvCreate name) st), inl f).
Proof.
  intros (Hres & (x & parent & -> & Hdir) & Hnd).
  unfold os.Create.
  change (os.resolve (os.emit (EvCreate name) st) name) with (os.resolve st name).
  rewrite Hres.
  change (files (os.emit (EvCreate name) st)) with (files st).
  rewrite Hdir.
  destruct (files st !! (x :: parent)) as [[d|]|] eqn:E; try reflexivity.
  contradiction.
Qed.

Lemma Create_inl (st st' : World) (name : string) (f : os.handle) :
  os.Create st name = (st', inl f) -> creatable st name f.
Proof.
  unfold os.Create, creatable.
  change (os.resolve (os.emit (EvCreate name) st) name) with (os.resolve st name).
  change (files (os.emit (EvCreate name) st)) with (files st).
  destruct (os.resolve st name) as [[|x parent]|]; try (intros [=]; fail).
  destruct (os.lookup_node (files st) parent) as [[d|]|] eqn:Hp; try (intros [=]; fail).
  destruct (files st !! (x :: parent)) as [[d|]|] eqn:E; intros [= _ <-];
    (split; [reflexivity|split; [eauto|by rewrite E]]).
Qed.

Lemma creatable_same_files (st st' : World) (name : string) (f : os.handle) :
  files st' = files st -> cwd st' = cwd st ->
  creatable st name f -> creatable st' name f.
Proof.
  intros Hf Hc (Hres & Hpar & Hnd). unfold creatable, os.resolve in *.
  rewrite Hf, Hc. auto.
Qed.

Lemma Write_new (data : list Byte.byte) :
  http.Write data http.newResponse = (mkResponse ∅ true 200 ∅ data [], None).
Proof. destruct data; reflexivity. Qed.

Lemma Redirect_new_status (method : string) :
  status (http.Redirect http.newResponse method "/" http.StatusFound) = 302.
Proof.
  unfold http.Redirect.
  destruct (bool_decide (method = http.MethodGet));
    destruct (bool_decide (method = http.MethodHead)); reflexivity.
Qed.

Lemma attachment_added (disposition : string) :
  http.setHeader (http.Header_Add "content-disposition" disposition)
    (http.setHeader (http.Header_Add "content-type" "application/octet-stream")
       http.newResponse)
  = mkResponse (attachmentHeader disposition) false 0 ∅ [] [].
Proof. vm_compute. reflexivity. Qed.

Lemma filepath_Abs_world (st st1 : World) (p : string) (x : string + error) :
  filepath_Abs st p = (st1, x) ->
  files st1 = files st /\ cwd st1 = cwd st /\ logs st1 = logs st /\
  (events st1 = events st \/ events st1 = events st ++ [EvGetwd]).
Proof.
  unfold filepath_Abs, os.Getwd.
  destruct (path.is_rooted (chars p)).
  - intros [= <- _]. repeat split; auto.
  - destruct (cwd st) eqn:E; intros [= <- _]; simpl; repeat split; auto.
Qed.

Lemma Encode_p (v : string) :
  url.Encode (url.SetAll {[ "p" := v ]} ∅) = "p=" +:+ url.QueryEscape v.
Proof.
  unfold url.SetAll. rewrite map_fmap_singleton, (right_id_L ∅ (∪)).
  unfold url.Encode. rewrite map_to_list_singleton. reflexivity.
Qed.

Lemma addQueryToPath_root (v : string) :
  addQueryToPath "/" {[ "p" := v ]} = inl ("/?p=" +:+ url.QueryEscape v).
Proof.
  unfold addQueryToPath.
  change (url.Parse "/") with (inl (B := error) (url.mkURL "/" "")).
  cbv beta iota zeta.
  change (url.Query (url.mkURL "/" "")) with (∅ : Values).
  rewrite Encode_p. reflexivity.
Qed.

Lemma addQueryToPath_download (v : string) :
  addQueryToPath "/download" {[ "p" := v ]}
  = inl ("/download?p=" +:+ url.QueryEscape v).
Proof.
  unfold addQueryToPath.
  change (url.Parse "/download") with (inl (B := error) (url.mkURL "/download" "")).
  cbv beta iota zeta.
  change (url.Query (url.mkURL "/download" "")) with (∅ : Values).
  rewrite Encode_p. reflexivity.
Qed.

Global Instance name_le_total : Total os.name_le.
Proof. intros a b. apply String.leb_total. Qed.

(** The entries [os.ReadDir] returns are the children of the directory,
    each once, in the order of their names. *)
Lemma entries_children (fs : FileSystem) (dir : list string) :
  (forall child, child ∈ os.entries fs dir <->
     exists n, fs !! (os.Name child :: dir) = Some n /\ os.IsDir child = os.is_dir n) /\
  NoDup (os.Name <$> os.entries fs dir) /\
  Sorted os.name_le (os.entries fs dir).
Proof.
  unfold os.entries. split; [|split].
  - intros child. rewrite merge_sort_Permutation, list_elem_of_omap. split.
    + intros ([k n] & Hin & Hentry). apply elem_of_map_to_list in Hin.
      unfold os.entry_in in Hentry. simpl in Hentry.
      destruct k as [|name parent]; [done|].
      destruct (decide (parent = dir)) as [->|]; [|done].
      injection Hentry as <-. eauto.
    + intros (n & Hn & Hd). exists (os.Name child :: dir, n). split.
      * by apply elem_of_map_to_list.
      * unfold os.entry_in. simpl. rewrite decide_True by done.
        destruct child as [name d]. simpl in *. by rewrite Hd.
  - rewrite merge_sort_Permutation.
    assert (Hnd := NoDup_fst_map_to_list fs).
    induction (map_to_list fs) as [|[k n] l IH]; simpl; [constructor|].
    inversion Hnd as [|? ? Hk Hl]; subst.
    unfold os.entry_in at 1. simpl.
    destruct k as [|name parent]; [by apply IH|].
    destruct (decide (parent = dir)) as [->|]; [|by apply IH].
    simpl. constructor; [|by apply IH].
    intros Hin. apply Hk. apply list_elem_of_fmap in Hin as (e & He & Hin).
    apply list_elem_of_omap in Hin as ([k' n'] & Hin & Hentry).
    unfold os.entry_in in Hentry. simpl in Hentry.
    destruct k' as [|name' parent']; [done|].
    destruct (decide (parent' = dir)) as [->|]; [|done].
    injection Hentry as <-. simpl in He. subst name'.
    apply list_elem_of_fmap. by exists (name :: dir, n').
  - apply Sorted_merge_sort; apply _.
Qed.

Section Properties.

Variables outputDir serveDir : string.
Variable tmplRoot : tmplData -> list Byte.byte.

(** C8. The navigation path of a GET request is the first value of [p]
    in its query, and [.] when [p] is absent or that value is empty; the
    listing handler depends on the request through this path and the
    path of the URL only, the download handler through this path only. *)
Theorem navigation_path_default (st : World) (w : ResponseWriter)
    (r : http.Request) :
  (url.Query (http.URL r) !! "p" = None -> navigationPath r = ".") /\
  (forall vs, url.Query (http.URL r) !! "p" = Some ("" :: vs) ->
     navigationPath r = ".") /\
  (forall v vs, url.Query (http.URL r) !! "p" = Some (v :: vs) -> v <> "" ->
     navigationPath r = v) /\
  (forall r', navigationPath r' = navigationPath r ->
     url.Path (http.URL r') = url.Path (http.URL r) ->
     handleRootGet serveDir tmplRoot st w r' = handleRootGet serveDir tmplRoot st w r) /\
  (forall r', navigationPath r' = navigationPath r ->
     handleDownloadGet serveDir st w r' = handleDownloadGet serveDir st w r).
Proof.
  unfold navigationPath. repeat split.
  - apply getQueryValueOrDefault_absent.
  - intros vs H. rewrite (getQueryValueOrDefault_first _ _ _ _ _ H). reflexivity.
  - intros v vs H Hv. rewrite (getQueryValueOrDefault_first _ _ _ _ _ H).
    destruct (decide (v = "")); [contradiction|reflexivity].
  - intros r' Hnav Hpath. unfold handleRootGet. rewrite Hnav, Hpath. reflexivity.
  - intros r' Hnav. unfold handleDownloadGet. rewrite Hnav. reflexivity.
Qed.

Lemma readParts_skip (w : ResponseWriter) (r : http.Request) (pre : list next) :
  forall (st : World) (rest : Reader),
  Forall otherField pre ->
  readParts outputDir st w r (pre ++ rest)
  = readParts outputDir (afterParts (length pre) st) w r rest.
Proof.
  induction pre as [|n pre IH]; intros st rest Hpre.
  - simpl. by rewrite afterParts_0.
  - inversion Hpre as [|? ? Hn Hpre']; subst.
    destruct n as [p|e]; [|contradiction]. simpl in Hn.
    simpl. destruct (decide (FormName p <> "file")); [|contradiction].
    simpl. rewrite IH by assumption. by rewrite afterParts_S.
Qed.

Lemma readParts_nil (st : World) (w : ResponseWriter) (r : http.Request) :
  readParts outputDir st w r [] = badRequest (os.emit EvNextPart st) w.
Proof. reflexivity. Qed.

Lemma readParts_err (st : World) (w : ResponseWriter) (r : http.Request)
    (e : error) (post : Reader) :
  errors_Is (Some e) io_EOF = false ->
  readParts outputDir st w r (GotErr e :: post)
  = mkResult (os.emit EvNextPart st) w Panicked.
Proof. intros He. simpl. simpl in He. by rewrite He. Qed.

(** C10, as the code behaves.  When [NextPart] fails with an error that
    is not the end of the body, after parts of other fields only, the
    upload handler calls [readPart] on the nil part and panics: no
    status is written, no 400 is sent. *)
Theorem upload_next_part_error_panics (st : World) (w : ResponseWriter)
    (r : http.Request) (pre post : list next) (e : error) :
  http.MultipartReader r = inl (pre ++ GotErr e :: post) ->
  Forall otherField pre ->
  errors_Is (Some e) io_EOF = false ->
  handleUploadPost outputDir st w r
  = mkResult (afterParts (S (length pre)) st) w Panicked.
Proof.
  intros Hr Hpre He. unfold handleUploadPost. rewrite Hr.
  rewrite readParts_skip by assumption.
  rewrite readParts_err by assumption. by rewrite afterParts_emit.
Qed.

(** C5, amended.  When the multipart body holds parts of other fields
    only, or no part, the upload handler answers 400 with the body
    [http.Error] writes for the empty message, a single newline, and
    leaves the files as they are: it creates none. *)
Theorem upload_without_file_part (st : World) (r : http.Request)
    (parts : list next) :
  http.MultipartReader r = inl parts ->
  Forall otherField parts ->
  let res := handleUploadPost outputDir st http.newResponse r in
  exit res = Returned /\
  status (response res) = 400 /\
  body (response res) = bytes_of newline /\
  files (world res) = files st /\
  events (world res) = events st ++ replicate (S (length parts)) EvNextPart.
Proof.
  intros Hr Hparts res.
  assert (Hres : res = badRequest (afterParts (S (length parts)) st) http.newResponse).
  { subst res. unfold handleUploadPost. rewrite Hr.
    rewrite <- (app_nil_r parts) at 1.
    rewrite readParts_skip by assumption.
    by rewrite readParts_nil, afterParts_emit. }
  rewrite Hres. repeat split; reflexivity.
Qed.

Lemma readParts_part (st : World) (w : ResponseWriter) (r : http.Request)
    (p : Part) (post : Reader) :
  readParts outputDir st w r (GotPart p :: post)
  = match readPart outputDir (os.emit EvNextPart st) (Some p) with
    | (st, None) => mkResult st w Panicked
    | (st, Some (_, Some _)) => badRequest st w
    | (st, Some (true, None)) =>
        mkResult st (http.Redirect w (http.Method r) "/" http.StatusFound) Returned
    | (st, Some (false, None)) => readParts outputDir st w r post
    end.
Proof. reflexivity. Qed.

Lemma readPart_file_ok (st : World) (p : Part) (f : os.handle) :
  FormName p = "file" ->
  creatable st (path.Join [outputDir; path.Base (FileName p)]) f ->
  readErr p = None ->
  readPart outputDir st (Some p)
  = (mkWorld (<[f := File (content p)]> (files st)) (cwd st)
             (logs st ++ [receiveLine outputDir p])
             (events st ++ [EvCreate (path.Join [outputDir; path.Base (FileName p)])]),
     Some (true, None)).
Proof.
  intros Hname Hc Herr. unfold readPart.
  destruct (decide (FormName p <> "file")) as [Hne|_]; [contradiction|].
  rewrite (Create_ok _ _ f);
    [|by apply (creatable_same_files st)].
  unfold io_Copy_part, os.append. simpl.
  rewrite lookup_insert_eq, Herr. simpl.
  by rewrite insert_insert_eq.
Qed.

(** The result of the upload handler when the first part of field
    [file] is stored. *)
Lemma handleUploadPost_stored (st : World) (r : http.Request)
    (pre post : list next) (p : Part) (f : os.handle) :
  http.MultipartReader r = inl (pre ++ GotPart p :: post) ->
  Forall otherField pre ->
  FormName p = "file" ->
  creatable st (path.Join [outputDir; path.Base (FileName p)]) f ->
  readErr p = None ->
  handleUploadPost outputDir st http.newResponse r
  = mkResult
      (mkWorld (<[f := File (content p)]> (files st)) (cwd st)
         (logs st ++ [receiveLine outputDir p])
         ((events st ++ replicate (S (length pre)) EvNextPart)
            ++ [EvCreate (path.Join [outputDir; path.Base (FileName p)])]))
      (http.Redirect http.newResponse (http.Method r) "/" http.StatusFound)
      Returned.
Proof.
  intros Hr Hpre Hname Hc Herr.
  unfold handleUploadPost. rewrite Hr.
  rewrite readParts_skip by assumption.
  rewrite readParts_part.
  rewrite (readPart_file_ok _ p f)
    by (assumption || by apply (creatable_same_files st)).
  rewrite afterParts_emit. reflexivity.
Qed.

(** The upload handler answers 302 only when the first part of field
    [file] was stored. *)
Lemma handleUploadPost_found (st : World) (r : http.Request)
    (pre post : list next) (p : Part) :
  http.MultipartReader r = inl (pre ++ GotPart p :: post) ->
  Forall otherField pre ->
  FormName p = "file" ->
  status (response (handleUploadPost outputDir st http.newResponse r)) = 302 ->
  readErr p = None /\
  exists f, creatable st (path.Join [outputDir; path.Base (FileName p)]) f.
Proof.
  intros Hr Hpre Hname. unfold handleUploadPost. rewrite Hr.
  rewrite readParts_skip by assumption.
  rewrite readParts_part. unfold readPart.
  destruct (decide (FormName p <> "file")) as [Hne|_]; [contradiction|].
  destruct (os.Create _ _) as [st' [f|e]] eqn:Hcreate; [|done].
  unfold io_Copy_part. destruct (readErr p); [done|].
  intros _. split; [done|]. exists f.
  apply Create_inl in Hcreate.
  by apply (creatable_same_files _ st) in Hcreate.
Qed.

(** When the file of the first part of field [file] cannot be created,
    or the part cannot be read to its end, the upload handler answers
    400. *)
Lemma handleUploadPost_rejected (st : World) (r : http.Request)
    (pre post : list next) (p : Part) :
  http.MultipartReader r = inl (pre ++ GotPart p :: post) ->
  Forall otherField pre ->
  FormName p = "file" ->
  (readErr p <> None \/
   forall f, ~ creatable st (path.Join [outputDir; path.Base (FileName p)]) f) ->
  let res := handleUploadPost outputDir st http.newResponse r in
  exit res = Returned /\
  status (response res) = 400 /\
  body (response res) = bytes_of newline.
Proof.
  intros Hr Hpre Hname Hfail res. subst res.
  unfold handleUploadPost. rewrite Hr.
  rewrite readParts_skip by assumption.
  rewrite readParts_part. unfold readPart.
  destruct (decide (FormName p <> "file")) as [Hne|_]; [contradiction|].
  destruct (os.Create _ _) as [st' [f|e]] eqn:Hcreate; [|done].
  unfold io_Copy_part. destruct (readErr p) eqn:Herr; [done|].
  destruct Hfail as [Hfail|Hfail]; [done|].
  exfalso. apply (Hfail f).
  apply Create_inl in Hcreate.
  by apply (creatable_same_files _ st) in Hcreate.
Qed.

(** C1, amended.  When the multipart body holds, after parts of other
    fields, a part of field [file], and the file at the output directory
    joined with the base of the part's file name can be created and the
    part is read to its end, the upload handler creates or truncates
    that file, writes to it the bytes of the part and no others, calls
    [NextPart] for no later part, and answers 302 with [Location] set to
    the root. *)
Theorem upload_first_file_part (st : World) (r : http.Request)
    (pre post : list next) (p : Part) (f : os.handle) :
  http.Method r = "POST" ->
  http.MultipartReader r = inl (pre ++ GotPart p :: post) ->
  Forall otherField pre ->
  FormName p = "file" ->
  creatable st (path.Join [outputDir; path.Base (FileName p)]) f ->
  readErr p = None ->
  let res := handleUploadPost outputDir st http.newResponse r in
  exit res = Returned /\
  status (response res) = 302 /\
  sentHeader (response res) !! "Location" = Some ["/"] /\
  body (response res) = [] /\
  files (world res) = <[f := File (content p)]> (files st) /\
  events (world res)
  = events st ++ replicate (S (length pre)) EvNextPart
      ++ [EvCreate (path.Join [outputDir; path.Base (FileName p)])].
Proof.
  intros Hm Hr Hpre Hname Hc Herr res. subst res.
  rewrite (handleUploadPost_stored st r pre post p f) by assumption.
  rewrite Hm. simpl. rewrite <- app_assoc. repeat split; reflexivity.
Qed.

(** What the download handler does, by the node it finds. *)
Lemma handleDownloadGet_cases (st : World) (r : http.Request) :
  let fsPath := path.Join [serveDir; navigationPath r] in
  let res := handleDownloadGet serveDir st http.newResponse r in
  exit res = Returned /\
  events (world res) = events st ++ [EvOpen fsPath] /\
  files (world res) = files st /\
  match nodeAt st fsPath with
  | None =>
      status (response res) = 500 /\ body (response res) = bytes_of newline
  | Some (File data) =>
      sentHeader (response res) = attachmentHeader (disposition fsPath) /\
      body (response res) = data /\
      headerCalls (response res) = [204] /\
      status (response res) = (if decide (data = []) then 204 else 200)
  | Some Dir =>
      status (response res) = 500 /\ body (response res) = bytes_of newline /\
      sentHeader (response res) !! "Content-Disposition" = Some [disposition fsPath]
  end.
Proof.
  intros fsPath res. subst res.
  unfold handleDownloadGet, os.Open, nodeAt.
  fold (navigationPath r). fold fsPath. fold (disposition fsPath).
  rewrite attachment_added. generalize (disposition fsPath) as d. intros d.
  destruct (os.resolve st fsPath) as [key|]; simpl;
    [|repeat split; reflexivity].
  unfold io_Copy_response.
  destruct (os.lookup_node (files st) key) as [[data|]|] eqn:E; simpl;
    rewrite ?E.
  - destruct data as [|b data]; simpl; repeat split; reflexivity.
  - repeat split; vm_compute; reflexivity.
  - repeat split; reflexivity.
Qed.

(** C6, amended.  The download handler opens the serve root joined with
    the navigation path, and nothing else.  When the open fails it
    answers 500 with the body [http.Error] writes for the empty message,
    a single newline, and no byte of a file.  When it opens a file it
    sets [Content-Type] to [application/octet-stream] and
    [Content-Disposition] to an attachment named by the base of the path,
    writes the whole file and then calls [WriteHeader(204)]; the call
    sets the status only when the file is empty.  When it opens a
    directory the copy fails and it answers 500 as before. *)
Theorem download_behaviour (st : World) (r : http.Request) :
  let fsPath := path.Join [serveDir; navigationPath r] in
  let res := handleDownloadGet serveDir st http.newResponse r in
  exit res = Returned /\
  events (world res) = events st ++ [EvOpen fsPath] /\
  files (world res) = files st /\
  match nodeAt st fsPath with
  | None =>
      status (response res) = 500 /\ body (response res) = bytes_of newline
  | Some (File data) =>
      sentHeader (response res) = attachmentHeader (disposition fsPath) /\
      body (response res) = data /\
      headerCalls (response res) = [204] /\
      status (response res) = (if decide (data = []) then 204 else 200)
  | Some Dir =>
      status (response res) = 500 /\ body (response res) = bytes_of newline /\
      sentHeader (response res) !! "Content-Disposition" = Some [disposition fsPath]
  end.
Proof. exact (handleDownloadGet_cases st r). Qed.

Lemma handleDownloadGet_world (st : World) (w : ResponseWriter) (r : http.Request) :
  world (handleDownloadGet serveDir st w r)
  = os.emit (EvOpen (path.Join [serveDir; navigationPath r])) st.
Proof.
  unfold handleDownloadGet, os.Open. fold (navigationPath r).
  repeat case_match; simplify_eq; reflexivity.
Qed.

Lemma handleRootGet_world (st : World) (w : ResponseWriter) (r : http.Request) :
  world (handleRootGet serveDir tmplRoot st w r)
  = if decide (url.Path (http.URL r) = "/") then
      match filepath_Abs st (path.Join [serveDir; navigationPath r]) with
      | (st1, inl fullPath) => os.emit (EvReadDir fullPath) st1
      | (st1, inr _) => st1
      end
    else st.
Proof.
  unfold handleRootGet, os.ReadDir. fold (navigationPath r).
  repeat case_match; simplify_eq; reflexivity.
Qed.

(** C9.  The download handler touches the file system once, opening the
    serve root joined with the navigation path as it is.  The listing
    handler makes that join absolute, which may ask for the working
    directory, and touches the file system once, reading the directory
    of the absolute path; it touches nothing when the join cannot be
    made absolute or the path of the URL is not the root.  Neither
    changes a file. *)
Theorem paths_accessed (st : World) (w : ResponseWriter) (r : http.Request) :
  let joined := path.Join [serveDir; navigationPath r] in
  let download := handleDownloadGet serveDir st w r in
  let listing := handleRootGet serveDir tmplRoot st w r in
  (events (world download) = events st ++ [EvOpen joined] /\
   files (world download) = files st) /\
  (url.Path (http.URL r) = "/" ->
     (events (filepath_Abs st joined).1 = events st \/
      events (filepath_Abs st joined).1 = events st ++ [EvGetwd]) /\
     events (world listing)
     = events (filepath_Abs st joined).1
         ++ match (filepath_Abs st joined).2 with
            | inl fullPath => [EvReadDir fullPath]
            | inr _ => []
            end) /\
  (url.Path (http.URL r) <> "/" -> events (world listing) = events st) /\
  files (world listing) = files st.
Proof.
  intros joined download listing. subst download listing.
  rewrite handleRootGet_world, handleDownloadGet_world.
  fold joined.
  split; [done|].
  destruct (decide (url.Path (http.URL r) = "/")) as [Hpath|Hpath].
  - destruct (filepath_Abs st joined) as [st1 [fullPath|e]] eqn:Habs; simpl;
      destruct (filepath_Abs_world _ _ _ _ Habs) as (Hf & _ & _ & Hev);
      repeat split; try done.
    by rewrite app_nil_r.
  - repeat split; done.
Qed.

Lemma appendEntries_listing (p : string) (children : list os.DirEntry) :
  forall fileEntries,
  appendEntries p fileEntries children
  = inl (fileEntries ++ map (childEntry p) children).
Proof.
  induction children as [|child children IH]; intros fileEntries; simpl.
  - by rewrite app_nil_r.
  - unfold entryOf, childEntry at 1.
    rewrite addQueryToPath_root, addQueryToPath_download.
    destruct (os.IsDir child); rewrite IH, <- app_assoc; reflexivity.
Qed.

(** C2.  When the serve root joined with the navigation path, made
    absolute, names a directory, the listing handler answers 200 with the
    page rendered for that absolute path and this list of entries: the
    parent entry first, then one entry for each child of the directory,
    in the order [os.ReadDir] returns them, each as the specification
    says ([listingOf]).  The children [os.ReadDir] returns are the nodes
    that lie in the directory, each once. *)
Theorem listing_entries (st st1 : World) (r : http.Request)
    (fullPath : string) (dir : list string) :
  url.Path (http.URL r) = "/" ->
  filepath_Abs st (path.Join [serveDir; navigationPath r]) = (st1, inl fullPath) ->
  os.resolve st1 fullPath = Some dir ->
  os.lookup_node (files st) dir = Some Dir ->
  let res := handleRootGet serveDir tmplRoot st http.newResponse r in
  let children := os.entries (files st) dir in
  exit res = Returned /\
  status (response res) = 200 /\
  body (response res)
  = tmplRoot (mkTmplData fullPath (listingOf (navigationPath r) children)) /\
  (forall child, child ∈ children <->
     exists n, files st !! (os.Name child :: dir) = Some n /\
               os.IsDir child = os.is_dir n) /\
  NoDup (os.Name <$> children).
Proof.
  intros Hpath Habs Hres Hdir res children.
  destruct (filepath_Abs_world _ _ _ _ Habs) as (Hf & _ & _ & _).
  assert (Hr : res =
    mkResult (os.emit (EvReadDir fullPath) st1)
      (mkResponse ∅ true 200 ∅
         (tmplRoot (mkTmplData fullPath (listingOf (navigationPath r) children))) [])
      Returned).
  { subst res. unfold handleRootGet. fold (navigationPath r).
    rewrite decide_True by done. rewrite Habs.
    unfold os.ReadDir. rewrite Hres, Hf, Hdir.
    rewrite addQueryToPath_root, appendEntries_listing.
    unfold tmplRoot_Execute. rewrite Write_new. reflexivity. }
  rewrite Hr. repeat split; try reflexivity;
    apply (entries_children (files st) dir).
Qed.

Lemma readParts_error_body (r : http.Request) (reader : Reader) :
  forall st : World,
  let res := readParts outputDir st http.newResponse r reader in
  isError (response res) -> body (response res) = bytes_of newline.
Proof.
  unfold isError.
  induction reader as [|n reader IH]; intros st; [done|].
  destruct n as [p|e].
  - rewrite readParts_part. unfold readPart.
    destruct (decide (FormName p <> "file")); [apply IH|].
    destruct (os.Create _ _) as [st' [f|e]]; [|done].
    unfold io_Copy_part. destruct (readErr p); [done|].
    cbv zeta. cbn [response]. rewrite Redirect_new_status. lia.
  - destruct (errors_Is (Some e) io_EOF) eqn:He.
    + simpl. simpl in He. rewrite He. done.
    + rewrite readParts_err by done. simpl. lia.
Qed.

(** The error responses of the three handlers. *)
Lemma handler_error_bodies (st : World) (r : http.Request) :
  let listing := handleRootGet serveDir tmplRoot st http.newResponse r in
  let download := handleDownloadGet serveDir st http.newResponse r in
  let upload := handleUploadPost outputDir st http.newResponse r in
  (isError (response listing) -> body (response listing) ∈ errorBodies) /\
  (isError (response download) -> body (response download) ∈ errorBodies) /\
  (isError (response upload) -> body (response upload) ∈ errorBodies) /\
  (forall err, http.MultipartReader r = inr err ->
     status (response upload) = 400 /\
     body (response upload)
     = bytes_of ("Unable to read multipart form data" +:+ newline) /\
     logs (world upload)
     = logs st ++ ["Unable to read multipart form data: " +:+ error_text err]) /\
  logs (world listing) = logs st /\
  logs (world download) = logs st.
Proof.
  intros listing download upload.
  assert (Hnl : bytes_of newline ∈ errorBodies)
    by (apply list_elem_of_In; simpl; auto).
  split; [|split; [|split; [|split; [|split]]]].
  - subst listing. unfold handleRootGet, isError.
    destruct (decide (url.Path (http.URL r) = "/"));
      [|intros _; apply list_elem_of_In; simpl; auto].
    destruct (filepath_Abs st _) as [st1 [fullPath|e']]; [|done].
    destruct (os.ReadDir st1 fullPath) as [st2 [entries|e']]; [|done].
    rewrite addQueryToPath_root, appendEntries_listing.
    unfold tmplRoot_Execute. rewrite Write_new. simpl. lia.
  - subst download. unfold isError.
    pose proof (handleDownloadGet_cases st r) as (_ & _ & _ & H).
    cbv zeta in H. destruct (nodeAt st _) as [[data|]|].
    + destruct H as (_ & _ & _ & ->). destruct (decide (data = [])); lia.
    + destruct H as (_ & -> & _). done.
    + destruct H as (_ & ->). done.
  - subst upload. unfold handleUploadPost.
    destruct (http.MultipartReader r) as [reader|err].
    + intros H. by rewrite (readParts_error_body r reader st H).
    + intros _. apply list_elem_of_In. simpl. auto.
  - intros err Hr. subst upload. unfold handleUploadPost. rewrite Hr.
    repeat split; reflexivity.
  - subst listing. rewrite handleRootGet_world.
    destruct (decide (url.Path (http.URL r) = "/")); [|done].
    destruct (filepath_Abs st _) as [st1 [fullPath|e']] eqn:Habs;
      destruct (filepath_Abs_world _ _ _ _ Habs) as (_ & _ & Hl & _); done.
  - subst download. by rewrite handleDownloadGet_world.
Qed.

(** C4, amended.  On the response of a new request, whenever a handler
    answers with an error status the body is one of three fixed texts
    that end in a newline and hold nothing of the error: the newline
    alone, written for the empty message; the message of the upload
    handler for a body that is not multipart; the message of
    [http.NotFound] for a listing request off the root.  Through the
    routes of [main] the body can also be empty, in the 405 of the
    router.  The handlers log the failure of the multipart reader; the
    errors of the listing and of the download are not logged. *)
Theorem error_bodies (st : World) (r : http.Request) :
  let listing := handleRootGet serveDir tmplRoot st http.newResponse r in
  let download := handleDownloadGet serveDir st http.newResponse r in
  let upload := handleUploadPost outputDir st http.newResponse r in
  (isError (response listing) -> body (response listing) ∈ errorBodies) /\
  (isError (response download) -> body (response download) ∈ errorBodies) /\
  (isError (response upload) -> body (response upload) ∈ errorBodies) /\
  (forall route,
     route ∈ [rootRoute serveDir tmplRoot; downloadRoute serveDir;
              uploadRoute outputDir] ->
     isError (response (route st http.newResponse r)) ->
     body (response (route st http.newResponse r)) ∈ [] :: errorBodies) /\
  (forall err, http.MultipartReader r = inr err ->
     status (response upload) = 400 /\
     body (response upload)
     = bytes_of ("Unable to read multipart form data" +:+ newline) /\
     logs (world upload)
     = logs st ++ ["Unable to read multipart form data: " +:+ error_text err]) /\
  logs (world listing) = logs st /\
  logs (world download) = logs st.
Proof.
  intros listing download upload.
  destruct (handler_error_bodies st r)
    as (Hlisting & Hdownload & Hupload & Hreader & Hlog1 & Hlog2).
  repeat (split; [assumption|]).
  split; [|repeat (split; [assumption|]); assumption].
  intros route Hroute Herr.
  apply list_elem_of_In in Hroute. simpl in Hroute.
  unfold rootRoute, downloadRoute, uploadRoute, routeByMethod in Hroute.
  destruct Hroute as [<-|[<-|[<-|[]]]]; simpl in *;
    repeat case_decide;
    first [ by apply list_elem_of_here
          | apply list_elem_of_further; auto ].
Qed.

(** A file cannot be created under the names that lead back to the
    directory itself or to the directory above it. *)
Lemma special_not_creatable (st : World) (dir name : string) (f : os.handle) :
  wellFormed (files st) -> isDirectory st dir ->
  chars name = path.dot \/ chars name = path.dotdot \/ chars name = [slash] ->
  ~ creatable st (path.Join [dir; name]) f.
Proof.
  intros Hwf (key & Hkey & Hdir) Hname (Hres & (x & parent & -> & Hpar) & Hnd).
  rewrite (resolve_Join st dir name key Hkey) in Hres.
  injection Hres as Hres.
  assert (Hat : os.walk key (chars name) = key \/
                os.walk key (chars name) = tail key).
  { destruct Hname as [->|[->| ->]]; auto. }
  destruct Hat as [Hat|Hat]; rewrite Hat in Hres.
  - subst key. by apply Hnd.
  - destruct key as [|y key]; [done|]. simpl in Hres. subst key.
    apply Hnd. apply (Hwf y (x :: parent) Dir Hdir).
Qed.

Lemma Base_plain (st : World) (dir fileName : string) (f : os.handle) :
  wellFormed (files st) -> isDirectory st dir ->
  creatable st (path.Join [dir; path.Base fileName]) f ->
  plain (chars (path.Base fileName)).
Proof.
  intros Hwf Hdir Hc. unfold path.Base in *. rewrite chars_text.
  destruct (base_cases (chars fileName)) as [?|Hb]; [done|].
  exfalso.
  apply (special_not_creatable st dir (text (path.base (chars fileName))) f
           Hwf Hdir); [|exact Hc].
  by rewrite chars_text.
Qed.

End Properties.

Section RoundTrip.

(** The one directory that is both output directory and serve root. *)
Variable dir : string.

(** C3.  Let the output directory and the serve root be one directory
    of a file system whose nodes all lie in directories.  When the upload
    handler answers 302 to a request whose first part of field [file] is
    [p], a download request whose [p] is the base of the file name of the
    part is answered with the bytes of the part, as an attachment named by
    that base. *)
Theorem upload_download_roundtrip (st : World) (r1 r2 : http.Request)
    (pre post : list next) (p : Part) :
  wellFormed (files st) ->
  isDirectory st dir ->
  http.MultipartReader r1 = inl (pre ++ GotPart p :: post) ->
  Forall otherField pre ->
  FormName p = "file" ->
  let up := handleUploadPost dir st http.newResponse r1 in
  status (response up) = 302 ->
  url.Query (http.URL r2) !! "p" = Some [path.Base (FileName p)] ->
  let down := handleDownloadGet dir (world up) http.newResponse r2 in
  exit down = Returned /\
  body (response down) = content p /\
  sentHeader (response down) !! "Content-Disposition"
  = Some ["attachment; filename=" +:+ dquote +:+ path.Base (FileName p) +:+ dquote].
Proof.
  intros Hwf Hdir Hr1 Hpre Hname up Hup Hq down.
  destruct (handleUploadPost_found dir st r1 pre post p Hr1 Hpre Hname Hup)
    as (Herr & f & Hc).
  pose proof (Base_plain st dir (FileName p) f Hwf Hdir Hc) as Hplain.
  assert (Hnav : navigationPath r2 = path.Base (FileName p)).
  { unfold navigationPath.
    rewrite (getQueryValueOrDefault_first _ _ _ _ _ Hq).
    rewrite decide_False; [done|].
    intros Hb. destruct Hplain as (Hne & _). apply Hne. by rewrite Hb. }
  assert (Hworld : world up =
    mkWorld (<[f := File (content p)]> (files st)) (cwd st)
      (logs st ++ [receiveLine dir p])
      ((events st ++ replicate (S (length pre)) EvNextPart)
         ++ [EvCreate (path.Join [dir; path.Base (FileName p)])])).
  { subst up.
    by rewrite (handleUploadPost_stored dir st r1 pre post p f). }
  pose proof (handleDownloadGet_cases dir (world up) r2) as (Hexit & _ & _ & Hnode).
  cbv zeta in Hnode. fold down in Hexit, Hnode.
  rewrite Hnav in Hnode.
  assert (Hat : nodeAt (world up) (path.Join [dir; path.Base (FileName p)])
                = Some (File (content p))).
  { destruct Hc as (Hres & (x & parent & -> & _) & _).
    unfold nodeAt. rewrite Hworld.
    change (os.resolve (mkWorld _ (cwd st) _ _) ?n) with (os.resolve st n).
    rewrite Hres. simpl. apply lookup_insert_eq. }
  rewrite Hat in Hnode. destruct Hnode as (Hh & Hb & _).
  split; [done|]. split; [done|].
  rewrite Hh. unfold disposition. rewrite Base_Join by done. reflexivity.
Qed.

End RoundTrip.

(** ** The theorems at work on the demo machine *)

Lemma routeByMethod_dispatch_witness :
  uploadRoute "/srv" demo http.newResponse (demo_post (inl []))
  = handleUploadPost "/srv" demo http.newResponse (demo_post (inl [])) /\
  rootRoute "/srv" demo_page demo http.newResponse (demo_get "/" "")
  = handleRootGet "/srv" demo_page demo http.newResponse (demo_get "/" "") /\
  status (response (uploadRoute "/srv" demo http.newResponse demo_put)) = 405 /\
  body (response (uploadRoute "/srv" demo http.newResponse demo_put)) = [].
Proof.
  split; [|split].
  - destruct (routeByMethod_dispatch
                (mkByMethod None (Some (handleUploadPost "/srv")))
                demo http.newResponse (demo_post (inl []))) as (_ & Hpost & _).
    apply Hpost; reflexivity.
  - destruct (routeByMethod_dispatch
                (mkByMethod (Some (handleRootGet "/srv" demo_page)) None)
                demo http.newResponse (demo_get "/" "")) as (Hget & _ & _).
    apply Hget; reflexivity.
  - destruct (routeByMethod_dispatch
                (mkByMethod None (Some (handleUploadPost "/srv")))
                demo http.newResponse demo_put) as (_ & _ & Hother).
    apply Hother.
    + left. discriminate.
    + left. discriminate.
    + reflexivity.
Defined.

Lemma navigation_path_default_witness :
  navigationPath (demo_get "/" "") = "." /\
  navigationPath (demo_get "/" "p=&p=docs") = "." /\
  navigationPath (demo_get "/" "p=docs&p=a.txt") = "docs".
Proof.
  split; [|split].
  - destruct (navigation_path_default "/srv" demo_page demo http.newResponse
                (demo_get "/" "")) as (Habsent & _).
    apply Habsent. vm_compute. reflexivity.
  - destruct (navigation_path_default "/srv" demo_page demo http.newResponse
                (demo_get "/" "p=&p=docs")) as (_ & Hempty & _).
    apply (Hempty ["docs"]). vm_compute. reflexivity.
  - destruct (navigation_path_default "/srv" demo_page demo http.newResponse
                (demo_get "/" "p=docs&p=a.txt")) as (_ & _ & Hfirst & _).
    apply (Hfirst "docs" ["a.txt"]).
    + vm_compute. reflexivity.
    + discriminate.
Defined.

Lemma upload_next_part_error_panics_witness :
  handleUploadPost "/srv" demo http.newResponse
    (demo_post (inl [GotPart part_note; GotErr malformedHeader]))
  = mkResult (afterParts 2 demo) http.newResponse Panicked.
Proof.
  apply (upload_next_part_error_panics "/srv" demo http.newResponse
           (demo_post (inl [GotPart part_note; GotErr malformedHeader]))
           [GotPart part_note] [] malformedHeader).
  - reflexivity.
  - constructor; [simpl; discriminate|constructor].
  - reflexivity.
Defined.

(** The minimal variant panics on the same request. *)
Lemma minimal_upload_next_part_error_panics :
  exit (Minimal.handleUploadPost demo http.newResponse
          (demo_post (inl [GotPart part_note; GotErr malformedHeader])))
  = Panicked.
Proof. reflexivity. Qed.

Lemma upload_without_file_part_witness :
  let res := handleUploadPost "/srv" demo http.newResponse
               (demo_post (inl [GotPart part_note])) in
  exit res = Returned /\
  status (response res) = 400 /\
  body (response res) = bytes_of newline /\
  files (world res) = files demo /\
  events (world res) = events demo ++ replicate 2 EvNextPart.
Proof.
  apply (upload_without_file_part "/srv" demo
           (demo_post (inl [GotPart part_note])) [GotPart part_note]).
  - reflexivity.
  - constructor; [simpl; discriminate|constructor].
Defined.

(** C5, as stated, fails: the body of the 400 is not empty. *)
Lemma upload_without_file_part_body_not_empty :
  let res := handleUploadPost "/srv" demo http.newResponse
               (demo_post (inl [GotPart part_note])) in
  status (response res) = 400 /\
  body (response res) = [Byte.x0a] /\
  body (response res) <> [].
Proof. vm_compute. repeat split; discriminate. Qed.

Lemma creatable_hello : creatable demo "/srv/hello.txt" ["hello.txt"; "srv"].
Proof.
  split; [vm_compute; reflexivity|]. split.
  - exists "hello.txt", ["srv"]. split; vm_compute; reflexivity.
  - vm_compute. discriminate.
Defined.

Lemma upload_first_file_part_witness :
  let res := handleUploadPost "/srv" demo http.newResponse
               (demo_post (inl [GotPart part_note; GotPart part_hello;
                                GotPart part_note])) in
  exit res = Returned /\
  status (response res) = 302 /\
  sentHeader (response res) !! "Location" = Some ["/"] /\
  body (response res) = [] /\
  files (world res) = <[["hello.txt"; "srv"] := File (bytes_of "hello")]> (files demo) /\
  events (world res)
  = events demo ++ replicate 2 EvNextPart ++ [EvCreate "/srv/hello.txt"].
Proof.
  apply (upload_first_file_part "/srv" demo
           (demo_post (inl [GotPart part_note; GotPart part_hello; GotPart part_note]))
           [GotPart part_note] [GotPart part_note] part_hello
           ["hello.txt"; "srv"]).
  - reflexivity.
  - reflexivity.
  - constructor; [simpl; discriminate|constructor].
  - reflexivity.
  - exact creatable_hello.
  - reflexivity.
Defined.

(** C1, as stated, fails: a body with a part of field [file] is answered
    400, and no file is created, when the file name is empty, as the path
    to create is then the output directory itself. *)
Lemma upload_unnamed_file_rejected :
  let res := handleUploadPost "/srv" demo http.newResponse
               (demo_post (inl [GotPart part_unnamed])) in
  path.Join ["/srv"; path.Base (FileName part_unnamed)] = "/srv" /\
  status (response res) = 400 /\
  status (response res) <> 302 /\
  files (world res) = files demo.
Proof.
  split; [vm_compute; reflexivity|]. split; [vm_compute; reflexivity|].
  split; [vm_compute; discriminate|]. vm_cast_no_check (eq_refl (files demo)).
Qed.

(** C6, as stated, fails: the body of the 500 is not empty. *)
Lemma download_missing_body_not_empty :
  let res := handleDownloadGet "/srv" demo http.newResponse
               (demo_get "/download" "p=missing.txt") in
  status (response res) = 500 /\
  body (response res) = [Byte.x0a] /\
  body (response res) <> [].
Proof. vm_compute. repeat split; discriminate. Qed.

(** C4, as stated, fails: the body of the 400 holds a message. *)
Lemma upload_not_multipart_body_not_empty :
  let res := handleUploadPost "/srv" demo http.newResponse
               (demo_post (inr notMultipart)) in
  status (response res) = 400 /\
  body (response res) = bytes_of ("Unable to read multipart form data" +:+ newline) /\
  body (response res) <> [].
Proof. vm_compute. repeat split; discriminate. Qed.

Lemma paths_accessed_witness :
  events (world (handleDownloadGet "." demo http.newResponse
                   (demo_get "/download" "p=docs/b.txt")))
  = [EvOpen "docs/b.txt"] /\
  events (world (handleRootGet "." demo_page demo http.newResponse
                   (demo_get "/" "p=docs")))
  = [EvGetwd; EvReadDir "/srv/docs"] /\
  events (world (handleRootGet "." demo_page demo http.newResponse
                   (demo_get "/other" "p=docs")))
  = [].
Proof.
  split; [|split].
  - apply (paths_accessed "." demo_page demo http.newResponse
             (demo_get "/download" "p=docs/b.txt")).
  - destruct (paths_accessed "." demo_page demo http.newResponse
                (demo_get "/" "p=docs")) as (_ & Hroot & _).
    apply Hroot. reflexivity.
  - destruct (paths_accessed "." demo_page demo http.newResponse
                (demo_get "/other" "p=docs")) as (_ & _ & Hother & _).
    apply Hother. discriminate.
Defined.

Lemma listing_entries_witness :
  let res := handleRootGet "/srv" demo_page demo http.newResponse
               (demo_get "/" "p=docs/..") in
  exit res = Returned /\
  status (response res) = 200 /\
  body (response res)
  = demo_page
      (mkTmplData "/srv"
         [ mkFileEntry "/?p=.." "../" "<DIR>";
           mkFileEntry "/download?p=a.txt" "a.txt" "";
           mkFileEntry "/?p=docs" "docs/" "<DIR>" ]).
Proof.
  destruct (listing_entries "/srv" demo_page demo demo
              (demo_get "/" "p=docs/..") "/srv" ["srv"])
    as (Hexit & Hstatus & Hbody & _).
  - reflexivity.
  - vm_compute. reflexivity.
  - vm_compute. reflexivity.
  - vm_compute. reflexivity.
  - split; [exact Hexit|]. split; [exact Hstatus|].
    etransitivity; [exact Hbody|]. vm_compute. reflexivity.
Defined.

Lemma error_bodies_witness :
  body (response (handleRootGet "/srv" demo_page demo http.newResponse
                    (demo_get "/" "p=missing"))) ∈ errorBodies /\
  body (response (handleDownloadGet "/srv" demo http.newResponse
                    (demo_get "/download" "p=docs"))) ∈ errorBodies /\
  body (response (handleUploadPost "/srv" demo http.newResponse
                    (demo_post (inl [])))) ∈ errorBodies /\
  body (response (uploadRoute "/srv" demo http.newResponse demo_put))
    ∈ [] :: errorBodies /\
  logs (world (handleUploadPost "/srv" demo http.newResponse
                 (demo_post (inr notMultipart))))
  = ["Unable to read multipart form data: request Content-Type isn't multipart/form-data"].
Proof.
  split; [|split; [|split; [|split]]].
  - destruct (error_bodies "/srv" "/srv" demo_page demo (demo_get "/" "p=missing"))
      as (Hlisting & _).
    apply Hlisting. vm_compute. discriminate.
  - destruct (error_bodies "/srv" "/srv" demo_page demo (demo_get "/download" "p=docs"))
      as (_ & Hdownload & _).
    apply Hdownload. vm_compute. discriminate.
  - destruct (error_bodies "/srv" "/srv" demo_page demo (demo_post (inl [])))
      as (_ & _ & Hupload & _).
    apply Hupload. vm_compute. discriminate.
  - destruct (error_bodies "/srv" "/srv" demo_page demo demo_put)
      as (_ & _ & _ & Hroute & _).
    apply (Hroute (uploadRoute "/srv")).
    + apply list_elem_of_In. simpl. auto.
    + vm_compute. discriminate.
  - destruct (error_bodies "/srv" "/srv" demo_page demo (demo_post (inr notMultipart)))
      as (_ & _ & _ & _ & Hreader & _).
    apply (Hreader notMultipart). reflexivity.
Defined.

Lemma demo_files_list :
  map_to_list demo_files
  = [ (["a.txt"; "srv"], File (bytes_of "hi"));
      (["b.txt"; "docs"; "srv"], File []);
      (["docs"; "srv"], Dir);
      (["srv"], Dir) ].
Proof. vm_compute. reflexivity. Qed.

Lemma demo_wellFormed : wellFormed demo_files.
Proof.
  intros x parent n Hn.
  apply elem_of_map_to_list in Hn. rewrite demo_files_list in Hn.
  apply list_elem_of_In in Hn. simpl in Hn.
  repeat (destruct Hn as [Hn|Hn];
          [injection Hn as <- <- <-; vm_compute; reflexivity|]).
  destruct Hn.
Defined.

Lemma demo_isDirectory : isDirectory demo "/srv".
Proof. exists ["srv"]. split; vm_compute; reflexivity. Defined.

Lemma upload_download_roundtrip_witness :
  let up := handleUploadPost "/srv" demo http.newResponse
              (demo_post (inl [GotPart part_note; GotPart part_hello])) in
  let down := handleDownloadGet "/srv" (world up) http.newResponse
                (demo_get "/download" "p=hello.txt") in
  exit down = Returned /\
  body (response down) = bytes_of "hello" /\
  sentHeader (response down) !! "Content-Disposition"
  = Some ["attachment; filename=" +:+ dquote +:+ "hello.txt" +:+ dquote].
Proof.
  apply (upload_download_roundtrip "/srv" demo
           (demo_post (inl [GotPart part_note; GotPart part_hello]))
           (demo_get "/download" "p=hello.txt")
           [GotPart part_note] [] part_hello).
  - exact demo_wellFormed.
  - exact demo_isDirectory.
  - reflexivity.
  - constructor; [simpl; discriminate|constructor].
  - reflexivity.
  - vm_compute. reflexivity.
  - vm_compute. reflexivity.
Defined.

(** * Further properties *)

(** ** Escaping *)

Lemma escape_cons (c : ascii) (s : list ascii) :
  url.escape (c :: s) = url.escape [c] ++ url.escape s.
Proof.
  simpl. destruct (url.unreserved c); [done|].
  destruct (bool_decide (c = " "%char)); done.
Qed.

Lemma unhex_upperhex (d : nat) :
  (d < 16)%nat -> url.unhex (url.upperhex d) = Some d.
Proof.
  intros Hd. do 16 (destruct d as [|d]; [reflexivity|]). lia.
Qed.

Lemma hex_digits (c : ascii) :
  (nat_of_ascii c / 16 < 16)%nat /\ (nat_of_ascii c mod 16 < 16)%nat /\
  ascii_of_nat (16 * (nat_of_ascii c / 16) + nat_of_ascii c mod 16) = c.
Proof.
  pose proof (nat_ascii_bounded c) as Hc. split; [|split].
  - apply Nat.Div0.div_lt_upper_bound. lia.
  - apply Nat.mod_upper_bound. lia.
  - rewrite <- Nat.div_mod_eq. apply ascii_nat_embedding.
Qed.

Lemma escape_byte (c : ascii) :
  url.escape [c]
  = if url.unreserved c then [c]
    else if bool_decide (c = " "%char) then ["+"%char]
    else ["%"%char; url.upperhex (nat_of_ascii c / 16);
          url.upperhex (nat_of_ascii c mod 16)].
Proof.
  simpl. destruct (url.unreserved c); [done|].
  by destruct (bool_decide (c = " "%char)).
Qed.

Lemma unescape_percent (a b : ascii) (x y : nat) (rest : list ascii) :
  url.unhex a = Some x -> url.unhex b = Some y ->
  url.unescape ("%"%char :: a :: b :: rest)
  = cons (ascii_of_nat (16 * x + y)) <$> url.unescape rest.
Proof. intros Ha Hb. simpl. rewrite Ha, Hb. reflexivity. Qed.

Lemma unescape_escape_byte (c : ascii) (rest : list ascii) :
  url.unescape (url.escape [c] ++ rest) = cons c <$> url.unescape rest.
Proof.
  destruct (hex_digits c) as (Hhi & Hlo & Hc).
  rewrite escape_byte. destruct (url.unreserved c) eqn:Hun.
  - simpl. destruct (decide (c = "%"%char)) as [->|_]; [done|].
    destruct (decide (c = "+"%char)) as [->|_]; done.
  - destruct (bool_decide (c = " "%char)) eqn:Hsp.
    + apply bool_decide_eq_true_1 in Hsp as ->. reflexivity.
    + cbn [app].
      rewrite (unescape_percent _ _ _ _ rest (unhex_upperhex _ Hhi)
                 (unhex_upperhex _ Hlo)).
      by rewrite Hc.
Qed.

Lemma unescape_escape (s : list ascii) : url.unescape (url.escape s) = Some s.
Proof.
  induction s as [|c s IH]; [done|].
  by rewrite escape_cons, unescape_escape_byte, IH.
Qed.

Lemma upperhex_no_separator (d : nat) :
  (d < 16)%nat -> separator (url.upperhex d) = false.
Proof.
  intros Hd. do 16 (destruct d as [|d]; [reflexivity|]). lia.
Qed.

Lemma separator_reserved (c : ascii) :
  separator c = true -> url.unreserved c = false.
Proof.
  unfold separator. intros H.
  apply orb_true_iff in H as [H|H]; [apply orb_true_iff in H as [H|H]|];
    apply bool_decide_eq_true_1 in H as ->; reflexivity.
Qed.

Lemma escape_no_separator (s : list ascii) (c : ascii) :
  separator c = true -> c ∉ url.escape s.
Proof.
  intros Hc. induction s as [|x s IH]; [apply not_elem_of_nil|].
  destruct (hex_digits x) as (Hhi & Hlo & _).
  rewrite escape_cons, escape_byte. intros Hin.
  apply elem_of_app in Hin as [Hin|Hin]; [|done].
  destruct (url.unreserved x) eqn:Hun.
  - apply list_elem_of_singleton in Hin as ->.
    apply separator_reserved in Hc. congruence.
  - destruct (bool_decide (x = " "%char)).
    + by apply list_elem_of_singleton in Hin as ->.
    + apply elem_of_cons in Hin as [->|Hin]; [done|].
      apply elem_of_cons in Hin as [->|Hin];
        [by rewrite upperhex_no_separator in Hc|].
      apply list_elem_of_singleton in Hin as ->.
      by rewrite upperhex_no_separator in Hc.
Qed.

Lemma split_on_none (sep : ascii) (b : list ascii) :
  sep ∉ b -> split_on sep b = [b].
Proof.
  induction b as [|c b IH]; intros Hb; simpl; [done|].
  apply not_elem_of_cons in Hb as [Hc Hb].
  rewrite decide_False by done. by rewrite IH.
Qed.

Lemma cut_first (sep : ascii) (a b : list ascii) :
  sep ∉ a -> cut sep (a ++ sep :: b) = (a, b).
Proof.
  induction a as [|c a IH]; intros Ha; simpl.
  - by rewrite decide_True.
  - apply not_elem_of_cons in Ha as [Hc Ha].
    rewrite decide_False by done. by rewrite IH.
Qed.

Lemma chars_app (a b : string) : chars (a +:+ b) = chars a ++ chars b.
Proof. induction a as [|c a IH]; simpl; [done|]. by rewrite <- IH. Qed.

Lemma ParseQuery_fields (query : string) :
  chars query <> [] ->
  url.ParseQuery query
  = foldl url.parse_field ∅ (split_on "&"%char (chars query)).
Proof. intros Hq. unfold url.ParseQuery. by destruct (chars query). Qed.

Lemma pair_no_separator (c : ascii) (key value : list ascii) :
  separator c = true -> c <> "="%char ->
  c ∉ url.escape key ++ "="%char :: url.escape value.
Proof.
  intros Hc Hne Hin. apply elem_of_app in Hin as [Hin|Hin].
  - by apply escape_no_separator in Hin.
  - apply elem_of_cons in Hin as [?|Hin]; [done|].
    by apply escape_no_separator in Hin.
Qed.

(** The one pair [key=value] of an encoded query parses back to the key
    and the value. *)
Lemma ParseQuery_pair (key value : string) :
  url.ParseQuery (url.QueryEscape key +:+ "=" +:+ url.QueryEscape value)
  = {[ key := [value] ]}.
Proof.
  assert (Hchars :
    chars (url.QueryEscape key +:+ "=" +:+ url.QueryEscape value)
    = url.escape (chars key) ++ "="%char :: url.escape (chars value)).
  { unfold url.QueryEscape. by rewrite !chars_app, !chars_text. }
  rewrite ParseQuery_fields; rewrite Hchars;
    [|by destruct (url.escape (chars key))].
  rewrite split_on_none by (by apply pair_no_separator).
  cbn [foldl]. unfold url.parse_field.
  rewrite bool_decide_eq_false_2 by (by apply pair_no_separator).
  rewrite decide_False by (by destruct (url.escape (chars key))).
  rewrite cut_first by (by apply escape_no_separator).
  rewrite !unescape_escape, !text_chars.
  rewrite lookup_total_empty. reflexivity.
Qed.

Lemma Encode_pair (key value : string) :
  url.Encode {[ key := [value] ]}
  = url.QueryEscape key +:+ "=" +:+ url.QueryEscape value.
Proof. unfold url.Encode. rewrite map_to_list_singleton. reflexivity. Qed.

Lemma navigationPath_nonempty (r : http.Request) : navigationPath r <> "".
Proof.
  unfold navigationPath, getQueryValueOrDefault.
  destruct (url.Query (http.URL r) !! "p") as [[|v vs]|]; simpl; try done.
  by destruct (decide (v = "")).
Qed.

Lemma walk_plain (key : list string) (b : list ascii) :
  plain b -> os.walk key b = text b :: key.
Proof.
  intros (H1 & H2 & H3 & H4). unfold os.walk. rewrite split_plain by done.
  cbn [foldl]. by apply walk_step_kept.
Qed.

Lemma filepath_Abs_resolve (st st1 : World) (x full : string) :
  absoluteCwd st -> x <> "" ->
  filepath_Abs st x = (st1, inl full) ->
  os.resolve st1 full = os.resolve st x.
Proof.
  intros Hcwd Hx. unfold filepath_Abs, os.Getwd.
  pose proof (chars_nonempty x Hx) as Hc.
  destruct (path.is_rooted (chars x)) eqn:Hr.
  - intros [= <- <-]. unfold path.Clean.
    by rewrite resolve_clean, text_chars.
  - destruct (cwd st) as [wd|] eqn:Hwd; intros [= <- <-].
    assert (Hres : os.resolve st wd = Some (os.walk [] (chars wd))).
    { rewrite <- (text_chars wd) at 1.
      specialize (Hcwd wd Hwd).
      rewrite resolve_text, Hcwd; [done|]. by destruct (chars wd). }
    change (os.resolve (os.emit EvGetwd st) ?n) with (os.resolve st n).
    rewrite (resolve_Join st wd x _ Hres).
    rewrite <- (text_chars x) at 2. rewrite resolve_text, Hr, Hwd by done.
    reflexivity.
Qed.

Lemma filepath_Abs_ok (st : World) (x : string) (key : list string) :
  os.resolve st x = Some key ->
  exists st1 full, filepath_Abs st x = (st1, inl full).
Proof.
  unfold filepath_Abs, os.Getwd, os.resolve.
  destruct (chars x) as [|c s] eqn:Hx; [done|].
  destruct (path.is_rooted (c :: s)); [eauto|].
  destruct (cwd st); [eauto|done].
Qed.

Lemma Create_files (st st' : World) (name : string) (x : os.handle + error) :
  os.Create st name = (st', x) ->
  cwd st' = cwd st /\
  match x with
  | inl f => files st' = <[f := File []]> (files st)
  | inr _ => files st' = files st
  end.
Proof.
  unfold os.Create.
  change (os.resolve (os.emit (EvCreate name) st) name) with (os.resolve st name).
  change (files (os.emit (EvCreate name) st)) with (files st).
  destruct (os.resolve st name) as [[|y parent]|]; try (by intros [= <- <-]).
  destruct (os.lookup_node (files st) parent) as [[d|]|]; try (by intros [= <- <-]).
  destruct (files st !! (y :: parent)) as [[d|]|]; by intros [= <- <-].
Qed.

Lemma cons_neq {A} (x : A) (l : list A) : l <> x :: l.
Proof. intros H. apply (f_equal length) in H. simpl in H. lia. Qed.

Lemma creatable_after_store (st st' : World) (name : string) (f : os.handle)
    (data : list Byte.byte) :
  creatable st name f ->
  files st' = <[f := File data]> (files st) -> cwd st' = cwd st ->
  creatable st' name f.
Proof.
  intros (Hres & (x & parent & -> & Hpar) & Hnd) Hf Hc.
  unfold creatable, os.resolve in *. rewrite Hf, Hc.
  split; [done|]. split.
  - exists x, parent. split; [done|].
    destruct parent as [|y parent]; [done|]. simpl in *.
    rewrite lookup_insert_ne; [done|]. intros H. symmetry in H.
    by apply cons_neq in H.
  - by rewrite lookup_insert_eq.
Qed.

Section Extras.

Variables outputDir serveDir : string.
Variable tmplRoot : tmplData -> list Byte.byte.

(** X1.  For the two paths the program builds links to, [/] and
    [/download], [addQueryToPath] with one key and one value returns the
    path, a question mark and a query that [url.ParseQuery] reads back as
    that key with that value alone, whatever bytes the key and the value
    hold. *)
Theorem addQueryToPath_roundtrip (urlPath key value : string) :
  urlPath = "/" \/ urlPath = "/download" ->
  exists q,
    addQueryToPath urlPath {[ key := value ]} = inl (urlPath +:+ "?" +:+ q) /\
    url.ParseQuery q = {[ key := [value] ]}.
Proof.
  intros Hpath.
  exists (url.QueryEscape key +:+ "=" +:+ url.QueryEscape value).
  split; [|apply ParseQuery_pair].
  assert (Hparse : url.Parse urlPath = inl (url.mkURL urlPath "")).
  { by destruct Hpath as [-> | ->]. }
  unfold addQueryToPath. rewrite Hparse. cbv beta iota zeta.
  change (url.Query (url.mkURL urlPath "")) with (∅ : Values).
  unfold url.SetAll. rewrite map_fmap_singleton, (right_id_L ∅ (∪)), Encode_pair.
  unfold url.String. cbn [url.RawQuery url.Path].
  rewrite decide_False; [done|].
  intros Hq. apply (f_equal chars) in Hq.
  unfold url.QueryEscape in Hq. rewrite !chars_app, !chars_text in Hq.
  by destruct (url.escape (chars key)).
Qed.

Lemma Join_nonempty (dir name : string) : dir <> "" -> path.Join [dir; name] <> "".
Proof.
  intros Hd. rewrite Join_dir by done. intros Hj.
  apply (f_equal chars) in Hj. rewrite chars_text in Hj.
  apply (clean_rooted (chars dir ++ slash :: chars name)); [|done].
  by destruct (chars dir).
Qed.

Lemma navigationPath_link (target value : string) :
  value <> "" -> target = "/" \/ target = "/download" ->
  url.Path (http.URL (requestOf (target +:+ "?p=" +:+ url.QueryEscape value))) = target /\
  navigationPath (requestOf (target +:+ "?p=" +:+ url.QueryEscape value)) = value.
Proof.
  intros Hv Ht.
  assert (Hreq : requestOf (target +:+ "?p=" +:+ url.QueryEscape value)
                 = http.mkRequest "GET"
                     (url.mkURL target
                        (url.QueryEscape "p" +:+ "=" +:+ url.QueryEscape value))
                     (inr notMultipart)).
  { unfold requestOf. rewrite chars_app.
    change (chars ("?p=" +:+ url.QueryEscape value))
      with ("?"%char :: chars ("p=" +:+ url.QueryEscape value)).
    rewrite cut_first
      by (destruct Ht as [-> | ->]; intros Hin; apply list_elem_of_In in Hin;
          simpl in Hin; intuition discriminate).
    by rewrite !text_chars. }
  rewrite Hreq. split; [done|].
  unfold navigationPath, url.Query. cbn [http.URL url.RawQuery].
  rewrite ParseQuery_pair.
  rewrite (getQueryValueOrDefault_first _ _ _ value []) by apply lookup_singleton_eq.
  by rewrite decide_False.
Qed.

(** X2.  The links of a listing lead where the listing says.  Followed
    as a GET request, the parent link asks the root path for the
    navigation path joined with [..]; the link of a child directory asks
    the root path, and the link of a child file the download path, for the
    navigation path joined with the name of the child. *)
Theorem listing_links_navigate (p : string) :
  p <> "" ->
  (forall u, addQueryToPath "/" {[ "p" := path.Join [p; ".."] ]} = inl u ->
     url.Path (http.URL (requestOf u)) = "/" /\
     navigationPath (requestOf u) = path.Join [p; ".."]) /\
  (forall child e, entryOf p child = inl e ->
     url.Path (http.URL (requestOf (URL e)))
     = (if os.IsDir child then "/" else "/download") /\
     navigationPath (requestOf (URL e)) = path.Join [p; os.Name child]).
Proof.
  intros Hp. split.
  - intros u. rewrite addQueryToPath_root. intros [= <-].
    apply (navigationPath_link "/"); [by apply Join_nonempty|auto].
  - intros child e. unfold entryOf.
    rewrite addQueryToPath_root, addQueryToPath_download.
    destruct (os.IsDir child); intros [= <-]; cbn [URL].
    + apply (navigationPath_link "/"); [by apply Join_nonempty|auto].
    + apply (navigationPath_link "/download"); [by apply Join_nonempty|auto].
Qed.

(** The listing of a directory that the absolute path names. *)
Lemma handleRootGet_listed (st st1 : World) (r : http.Request)
    (fullPath : string) (dir : list string) :
  url.Path (http.URL r) = "/" ->
  filepath_Abs st (path.Join [serveDir; navigationPath r]) = (st1, inl fullPath) ->
  os.resolve st1 fullPath = Some dir ->
  os.lookup_node (files st) dir = Some Dir ->
  handleRootGet serveDir tmplRoot st http.newResponse r
  = mkResult (os.emit (EvReadDir fullPath) st1)
      (mkResponse ∅ true 200 ∅
         (tmplRoot (mkTmplData fullPath
                      (listingOf (navigationPath r) (os.entries (files st) dir)))) [])
      Returned.
Proof.
  intros Hpath Habs Hres Hdir.
  destruct (filepath_Abs_world _ _ _ _ Habs) as (Hf & _ & _ & _).
  unfold handleRootGet. fold (navigationPath r).
  rewrite decide_True by done. rewrite Habs.
  unfold os.ReadDir. rewrite Hres, Hf, Hdir.
  rewrite addQueryToPath_root, appendEntries_listing.
  unfold tmplRoot_Execute. rewrite Write_new. reflexivity.
Qed.

(** X3.  The download handler follows the navigation path from the
    serve root element by element, [..] included, and serves the file it
    arrives at, with status 200, or 204 when the file is empty.  Nothing
    keeps the path below the serve root. *)
Theorem download_follows_path (st : World) (r : http.Request)
    (key : list string) (data : list Byte.byte) :
  os.resolve st serveDir = Some key ->
  os.lookup_node (files st) (os.walk key (chars (navigationPath r)))
  = Some (File data) ->
  let res := handleDownloadGet serveDir st http.newResponse r in
  exit res = Returned /\
  body (response res) = data /\
  status (response res) = (if decide (data = []) then 204 else 200).
Proof.
  intros Hkey Hnode res.
  pose proof (handleDownloadGet_cases serveDir st r) as (Hexit & _ & _ & Hcases).
  cbv zeta in Hcases. unfold nodeAt in Hcases.
  rewrite (resolve_Join st serveDir _ key Hkey) in Hcases.
  cbn [mbind option_bind] in Hcases. rewrite Hnode in Hcases.
  destruct Hcases as (_ & Hbody & _ & Hstatus). done.
Qed.

(** X4.  When the working directory is an absolute path, the listing
    handler follows the navigation path from the serve root element by
    element, [..] included, and lists the directory it arrives at, with
    status 200.  Nothing keeps the path below the serve root. *)
Theorem listing_follows_path (st : World) (r : http.Request) (key : list string) :
  absoluteCwd st ->
  url.Path (http.URL r) = "/" ->
  os.resolve st serveDir = Some key ->
  os.lookup_node (files st) (os.walk key (chars (navigationPath r))) = Some Dir ->
  let res := handleRootGet serveDir tmplRoot st http.newResponse r in
  exit res = Returned /\
  status (response res) = 200 /\
  exists fullPath,
    body (response res)
    = tmplRoot
        (mkTmplData fullPath
           (listingOf (navigationPath r)
              (os.entries (files st) (os.walk key (chars (navigationPath r)))))).
Proof.
  intros Hcwd Hpath Hkey Hdir res.
  pose proof (resolve_Join st serveDir (navigationPath r) key Hkey) as Hjoin.
  destruct (filepath_Abs_ok st _ _ Hjoin) as (st1 & fullPath & Habs).
  assert (Hne : path.Join [serveDir; navigationPath r] <> "").
  { apply Join_nonempty. by intros ->. }
  pose proof (filepath_Abs_resolve st st1 _ fullPath Hcwd Hne Habs) as Hres.
  rewrite Hjoin in Hres.
  subst res. rewrite (handleRootGet_listed st st1 r fullPath _ Hpath Habs Hres Hdir).
  repeat split. by exists fullPath.
Qed.

(** X5.  An upload that is answered 302 has written into the output
    directory itself: in a file system whose nodes all lie in
    directories, the one file it has set is the child of the output
    directory named by the base of the part's file name, a name without
    slash, whatever directories the file name of the part goes through. *)
Theorem upload_stays_in_output_dir (st : World) (r : http.Request)
    (pre post : list next) (p : Part) (key : list string) :
  wellFormed (files st) ->
  os.resolve st outputDir = Some key ->
  os.lookup_node (files st) key = Some Dir ->
  http.MultipartReader r = inl (pre ++ GotPart p :: post) ->
  Forall otherField pre ->
  FormName p = "file" ->
  let res := handleUploadPost outputDir st http.newResponse r in
  status (response res) = 302 ->
  (slash ∉ chars (path.Base (FileName p))) /\
  files (world res)
  = <[path.Base (FileName p) :: key := File (content p)]> (files st).
Proof.
  intros Hwf Hkey Hdir Hr Hpre Hname res Hstatus.
  destruct (handleUploadPost_found outputDir st r pre post p Hr Hpre Hname Hstatus)
    as (Herr & f & Hc).
  assert (Hisdir : isDirectory st outputDir) by (exists key; done).
  pose proof (Base_plain st outputDir (FileName p) f Hwf Hisdir Hc) as Hplain.
  assert (Hf : f = path.Base (FileName p) :: key).
  { destruct Hc as (Hres & _).
    rewrite (resolve_Join st outputDir _ key Hkey) in Hres.
    injection Hres as <-. by rewrite walk_plain, text_chars. }
  split; [apply Hplain|].
  subst res f.
  by rewrite (handleUploadPost_stored outputDir st r pre post p _ Hr Hpre Hname Hc Herr).
Qed.

(** X6.  When the body of the file part breaks off, the upload handler
    answers 400 and leaves the file it has created in place, holding the
    bytes copied before the error. *)
Theorem upload_read_error_leaves_partial_file (st : World) (r : http.Request)
    (pre post : list next) (p : Part) (f : os.handle) (e : error) :
  http.MultipartReader r = inl (pre ++ GotPart p :: post) ->
  Forall otherField pre ->
  FormName p = "file" ->
  creatable st (path.Join [outputDir; path.Base (FileName p)]) f ->
  readErr p = Some e ->
  let res := handleUploadPost outputDir st http.newResponse r in
  exit res = Returned /\
  status (response res) = 400 /\
  files (world res) = <[f := File (content p)]> (files st).
Proof.
  intros Hr Hpre Hname Hc Herr res. subst res.
  unfold handleUploadPost. rewrite Hr.
  rewrite readParts_skip by assumption.
  rewrite readParts_part. unfold readPart.
  destruct (decide (FormName p <> "file")) as [Hne|_]; [contradiction|].
  rewrite (Create_ok _ _ f) by (by apply (creatable_same_files st)).
  unfold io_Copy_part, os.append. simpl.
  rewrite lookup_insert_eq, Herr. simpl.
  by rewrite insert_insert_eq.
Qed.

(** X7.  An error of [NextPart] that wraps [io.EOF], as for a body that
    ends before its closing boundary, ends the upload with status 400:
    the handler returns, and changes no file. *)
Theorem upload_truncated_body (st : World) (r : http.Request)
    (pre post : list next) (e : error) :
  http.MultipartReader r = inl (pre ++ GotErr e :: post) ->
  Forall otherField pre ->
  errors_Is (Some e) io_EOF = true ->
  let res := handleUploadPost outputDir st http.newResponse r in
  exit res = Returned /\
  status (response res) = 400 /\
  files (world res) = files st.
Proof.
  intros Hr Hpre He res. subst res.
  unfold handleUploadPost. rewrite Hr.
  rewrite readParts_skip by assumption.
  simpl. simpl in He. rewrite He. done.
Qed.

Lemma readParts_file_part (st : World) (w : ResponseWriter) (r r' : http.Request)
    (p : Part) (post post' : Reader) :
  FormName p = "file" -> http.Method r = http.Method r' ->
  readParts outputDir st w r (GotPart p :: post)
  = readParts outputDir st w r' (GotPart p :: post').
Proof.
  intros Hname Hm. rewrite !readParts_part. unfold readPart.
  destruct (decide (FormName p <> "file")) as [Hne|_]; [contradiction|].
  destruct (os.Create _ _) as [st' [f|e]]; [|done].
  unfold io_Copy_part. destruct (readErr p); [done|]. by rewrite Hm.
Qed.

Lemma readParts_later_parts (w : ResponseWriter) (r r' : http.Request)
    (pre post post' : list next) (p : Part) :
  FormName p = "file" -> http.Method r = http.Method r' ->
  forall st,
  readParts outputDir st w r (pre ++ GotPart p :: post)
  = readParts outputDir st w r' (pre ++ GotPart p :: post').
Proof.
  intros Hname Hm. induction pre as [|n pre IH]; intros st.
  - by apply readParts_file_part.
  - destruct n as [q|e].
    + change ((GotPart q :: pre) ++ GotPart p :: post)
        with (GotPart q :: (pre ++ GotPart p :: post)).
      change ((GotPart q :: pre) ++ GotPart p :: post')
        with (GotPart q :: (pre ++ GotPart p :: post')).
      rewrite !readParts_part.
      destruct (readPart outputDir (os.emit EvNextPart st) (Some q))
        as [st' [[[] [e|]]|]]; try done. by rewrite Hm.
    + change ((GotErr e :: pre) ++ GotPart p :: post)
        with (GotErr e :: (pre ++ GotPart p :: post)).
      change ((GotErr e :: pre) ++ GotPart p :: post')
        with (GotErr e :: (pre ++ GotPart p :: post')).
      destruct (errors_Is (Some e) io_EOF) eqn:He.
      * simpl. simpl in He. by rewrite He.
      * by rewrite !readParts_err.
Qed.

(** X8.  The upload handler reads nothing after the first part of field
    [file]: two requests that differ only in what follows that part have
    the same result, whether the part can be stored or not. *)
Theorem upload_ignores_later_parts (st : World) (w : ResponseWriter)
    (method : string) (u : url.URL) (pre post post' : list next) (p : Part) :
  FormName p = "file" ->
  handleUploadPost outputDir st w
    (http.mkRequest method u (inl (pre ++ GotPart p :: post)))
  = handleUploadPost outputDir st w
      (http.mkRequest method u (inl (pre ++ GotPart p :: post'))).
Proof.
  intros Hname. unfold handleUploadPost. cbn [http.MultipartReader].
  by apply readParts_later_parts.
Qed.

(** X9.  Off the root path the listing handlers of the two variants do
    the same: they answer 404 with the text of [http.NotFound] and leave
    the world as it is. *)
Theorem listing_off_root_not_found (st : World) (r : http.Request)
    (page : list Byte.byte) :
  url.Path (http.URL r) <> "/" ->
  let full := handleRootGet serveDir tmplRoot st http.newResponse r in
  let minimal := Minimal.handleRootGet page st http.newResponse r in
  full = minimal /\
  world full = st /\
  exit full = Returned /\
  status (response full) = 404 /\
  body (response full) = bytes_of ("404 page not found" +:+ newline).
Proof.
  intros Hpath full minimal. subst full minimal.
  unfold handleRootGet, Minimal.handleRootGet.
  rewrite !decide_False by done. repeat split; reflexivity.
Qed.

(** X10.  When the absolute path of a listing names no directory, that
    is nothing or a file, the listing handler answers 500 with the body of
    a single newline and changes no file. *)
Theorem listing_unreadable_directory (st : World) (r : http.Request) :
  url.Path (http.URL r) = "/" ->
  (forall st1 fullPath,
     filepath_Abs st (path.Join [serveDir; navigationPath r]) = (st1, inl fullPath) ->
     nodeAt st fullPath <> Some Dir) ->
  let res := handleRootGet serveDir tmplRoot st http.newResponse r in
  exit res = Returned /\
  status (response res) = 500 /\
  body (response res) = bytes_of newline /\
  files (world res) = files st.
Proof.
  intros Hpath Hnode res. subst res.
  unfold handleRootGet. fold (navigationPath r).
  rewrite decide_True by done.
  destruct (filepath_Abs st _) as [st1 [fullPath|e]] eqn:Habs.
  - destruct (filepath_Abs_world _ _ _ _ Habs) as (Hf & Hc & _ & _).
    specialize (Hnode st1 fullPath eq_refl).
    unfold os.ReadDir, nodeAt in *.
    assert (Hres : os.resolve st1 fullPath = os.resolve st fullPath).
    { unfold os.resolve. by rewrite Hc. }
    rewrite Hres, Hf.
    destruct (os.resolve st fullPath) as [key|]; [|done].
    cbn [mbind option_bind] in Hnode.
    destruct (os.lookup_node (files st) key) as [[data|]|]; done.
  - by destruct (filepath_Abs_world _ _ _ _ Habs) as (Hf & _).
Qed.

(** X11.  The three routes of [main] by method.  A GET request reaches
    the listing handler on the root route and the download handler on the
    download route; a POST request reaches the upload handler on the
    upload route.  Every other pairing of route and method is answered
    405 by the router, which leaves the world alone. *)
Theorem routes_by_method (st : World) (w : ResponseWriter) (r : http.Request) :
  let rejected := mkResult st (http.WriteHeader 405 w) Returned in
  (http.Method r = "GET" ->
     rootRoute serveDir tmplRoot st w r = handleRootGet serveDir tmplRoot st w r /\
     downloadRoute serveDir st w r = handleDownloadGet serveDir st w r /\
     uploadRoute outputDir st w r = rejected) /\
  (http.Method r = "POST" ->
     uploadRoute outputDir st w r = handleUploadPost outputDir st w r /\
     rootRoute serveDir tmplRoot st w r = rejected /\
     downloadRoute serveDir st w r = rejected) /\
  (http.Method r <> "GET" -> http.Method r <> "POST" ->
     rootRoute serveDir tmplRoot st w r = rejected /\
     downloadRoute serveDir st w r = rejected /\
     uploadRoute outputDir st w r = rejected).
Proof.
  intros rejected.
  unfold rootRoute, downloadRoute, uploadRoute, routeByMethod,
    http.MethodGet, http.MethodPost.
  cbn [Get Post]. split; [|split].
  - intros Hm.
    destruct (decide (http.Method r = "GET")); [|done].
    repeat split; reflexivity.
  - intros Hm.
    destruct (decide (http.Method r = "GET")); [congruence|].
    destruct (decide (http.Method r = "POST")); [|done].
    repeat split; reflexivity.
  - intros Hget Hpost.
    destruct (decide (http.Method r = "GET")); [done|].
    destruct (decide (http.Method r = "POST")); [done|].
    repeat split; reflexivity.
Qed.

Lemma minimal_readParts_world (w : ResponseWriter) (r : http.Request)
    (reader : Reader) :
  forall st,
  let res := Minimal.readParts st w r reader in
  files (world res) = files st /\ logs (world res) = logs st /\
  exists k, events (world res) = events st ++ replicate k EvNextPart.
Proof.
  induction reader as [|n reader IH]; intros st.
  - simpl. repeat split. by exists 1%nat.
  - destruct n as [p|e].
    + assert (Hstep : forall res,
        files (world res) = files (os.emit EvNextPart st) ->
        logs (world res) = logs (os.emit EvNextPart st) ->
        (exists k, events (world res)
                   = events (os.emit EvNextPart st) ++ replicate k EvNextPart) ->
        files (world res) = files st /\ logs (world res) = logs st /\
        exists k, events (world res) = events st ++ replicate k EvNextPart).
      { intros res Hf Hl (k & Hk). repeat split; [done|done|].
        exists (S k). rewrite Hk. simpl. by rewrite <- app_assoc. }
      cbv zeta. simpl. unfold Minimal.readPart.
      destruct (decide (FormName p <> "file")).
      * apply Hstep; apply (IH (os.emit EvNextPart st)).
      * destruct (readErr p); apply Hstep; try done; by exists 0%nat; rewrite app_nil_r.
    + cbv zeta. destruct (errors_Is (Some e) io_EOF) eqn:He;
        simpl; simpl in He; rewrite He; simpl;
        repeat split; by exists 1%nat.
Qed.

(** X12.  The upload handler of the minimal variant stores nothing:
    whatever the request, it leaves the files as they are, and all it does
    to the world is to call [NextPart]. *)
Theorem minimal_upload_stores_nothing (st : World) (w : ResponseWriter)
    (r : http.Request) :
  let res := Minimal.handleUploadPost st w r in
  files (world res) = files st /\
  forall ev, ev ∈ events (world res) -> ev ∈ events st \/ ev = EvNextPart.
Proof.
  intros res. subst res. unfold Minimal.handleUploadPost.
  destruct (http.MultipartReader r) as [reader|err].
  - destruct (minimal_readParts_world w r reader st) as (Hf & _ & k & Hk).
    split; [done|]. intros ev. rewrite Hk.
    intros Hin. apply elem_of_app in Hin as [Hin|Hin]; [by left|right].
    by apply elem_of_replicate in Hin as [-> _].
  - split; [done|]. intros ev Hin. by left.
Qed.

Lemma readParts_files (w : ResponseWriter) (r : http.Request) (reader : Reader) :
  forall st,
  let res := readParts outputDir st w r reader in
  files (world res) = files st \/
  exists f data, files (world res) = <[f := File data]> (files st).
Proof.
  induction reader as [|n reader IH]; intros st; [by left|].
  destruct n as [p|e].
  - cbv zeta. rewrite readParts_part. unfold readPart.
    destruct (decide (FormName p <> "file")).
    + apply (IH (os.emit EvNextPart st)).
    + destruct (os.Create _ _) as [st' [f|e]] eqn:Hcreate;
        apply Create_files in Hcreate as (_ & Hf); simpl in Hf.
      * right. exists f, (content p).
        unfold io_Copy_part, os.append. rewrite Hf, lookup_insert_eq.
        destruct (readErr p); simpl; by rewrite insert_insert_eq.
      * by left.
  - cbv zeta. destruct (errors_Is (Some e) io_EOF) eqn:He.
    + simpl. simpl in He. rewrite He. by left.
    + rewrite readParts_err by done. by left.
Qed.

(** X13.  One upload request changes at most one file: after it the
    files are as before, or as before but for one file that has been set. *)
Theorem upload_changes_at_most_one_file (st : World) (w : ResponseWriter)
    (r : http.Request) :
  let res := handleUploadPost outputDir st w r in
  files (world res) = files st \/
  exists f data, files (world res) = <[f := File data]> (files st).
Proof.
  intros res. subst res. unfold handleUploadPost.
  destruct (http.MultipartReader r) as [reader|err]; [|by left].
  apply readParts_files.
Qed.

(** X14.  A second upload under the same base name replaces the first:
    both are answered 302, and afterwards the file holds the bytes of the
    second part only. *)
Theorem upload_overwrites (st : World) (r1 r2 : http.Request)
    (pre1 post1 pre2 post2 : list next) (p1 p2 : Part) (f : os.handle) :
  http.MultipartReader r1 = inl (pre1 ++ GotPart p1 :: post1) ->
  http.MultipartReader r2 = inl (pre2 ++ GotPart p2 :: post2) ->
  Forall otherField pre1 -> Forall otherField pre2 ->
  FormName p1 = "file" -> FormName p2 = "file" ->
  path.Base (FileName p1) = path.Base (FileName p2) ->
  creatable st (path.Join [outputDir; path.Base (FileName p1)]) f ->
  readErr p1 = None -> readErr p2 = None ->
  let first := handleUploadPost outputDir st http.newResponse r1 in
  let second := handleUploadPost outputDir (world first) http.newResponse r2 in
  status (response first) = 302 /\
  status (response second) = 302 /\
  files (world second) = <[f := File (content p2)]> (files st).
Proof.
  intros Hr1 Hr2 Hpre1 Hpre2 Hn1 Hn2 Hbase Hc He1 He2 first second.
  subst second first.
  rewrite (handleUploadPost_stored outputDir st r1 pre1 post1 p1 f) by assumption.
  cbn [world response].
  rewrite Redirect_new_status. split; [done|].
  rewrite (handleUploadPost_stored outputDir _ r2 pre2 post2 p2 f); try assumption.
  - cbn [world response files]. rewrite Redirect_new_status.
    split; [done|]. apply insert_insert_eq.
  - rewrite <- Hbase. by apply (creatable_after_store st _ _ f (content p1)).
Qed.

Lemma minimal_readParts_skip (w : ResponseWriter) (r : http.Request)
    (pre : list next) :
  forall (st : World) (rest : Reader),
  Forall otherField pre ->
  Minimal.readParts st w r (pre ++ rest)
  = Minimal.readParts (afterParts (length pre) st) w r rest.
Proof.
  induction pre as [|n pre IH]; intros st rest Hpre.
  - simpl. by rewrite afterParts_0.
  - inversion Hpre as [|? ? Hn Hpre']; subst.
    destruct n as [p|e]; [|contradiction]. simpl in Hn.
    simpl. destruct (decide (FormName p <> "file")); [|contradiction].
    simpl. rewrite IH by assumption. by rewrite afterParts_S.
Qed.

(** X15.  The minimal variant answers the first part of field [file]
    by 302 when the body of the part can be read, and by 400 when
    reading it fails. *)
Theorem minimal_upload_status (st : World) (r : http.Request)
    (pre post : list next) (p : Part) :
  http.MultipartReader r = inl (pre ++ GotPart p :: post) ->
  Forall otherField pre ->
  FormName p = "file" ->
  let res := Minimal.handleUploadPost st http.newResponse r in
  exit res = Returned /\
  status (response res)
  = match readErr p with Some _ => 400 | None => 302 end.
Proof.
  intros Hr Hpre Hname res. subst res.
  unfold Minimal.handleUploadPost. rewrite Hr.
  rewrite minimal_readParts_skip by assumption.
  simpl. unfold Minimal.readPart.
  destruct (decide (FormName p <> "file")) as [Hne|_]; [contradiction|].
  destruct (readErr p); simpl; [done|].
  split; [done|]. apply Redirect_new_status.
Qed.

(** X18.  On the root path the listing handler of the minimal variant
    answers 200 with the page of its template, whatever the query, the
    method and the state of the world, which it leaves as it is. *)
Theorem minimal_root_page (st : World) (r : http.Request) (page : list Byte.byte) :
  url.Path (http.URL r) = "/" ->
  Minimal.handleRootGet page st http.newResponse r
  = mkResult st (mkResponse ∅ true 200 ∅ page []) Returned.
Proof.
  intros Hpath. unfold Minimal.handleRootGet.
  rewrite decide_True by done. by rewrite Write_new.
Qed.

End Extras.

Section SharedDirectory.

Variable dir : string.
Variable tmplRoot : tmplData -> list Byte.byte.

(** X16.  When the output directory is also the serve root, a file
    whose upload was answered 302 is shown by the listing of the root
    that follows, as a file entry under the base of its name with a link
    to the download path. *)
Theorem uploaded_file_is_listed (st : World) (r1 r2 : http.Request)
    (pre post : list next) (p : Part) (key : list string) :
  wellFormed (files st) -> absoluteCwd st ->
  os.resolve st dir = Some key ->
  os.lookup_node (files st) key = Some Dir ->
  http.MultipartReader r1 = inl (pre ++ GotPart p :: post) ->
  Forall otherField pre ->
  FormName p = "file" ->
  let up := handleUploadPost dir st http.newResponse r1 in
  status (response up) = 302 ->
  url.Path (http.URL r2) = "/" ->
  url.Query (http.URL r2) !! "p" = None ->
  let listing := handleRootGet dir tmplRoot (world up) http.newResponse r2 in
  status (response listing) = 200 /\
  exists fullPath entries,
    body (response listing) = tmplRoot (mkTmplData fullPath entries) /\
    mkFileEntry
      ("/download?p="
       +:+ url.QueryEscape (path.Join ["."; path.Base (FileName p)]))
      (path.Base (FileName p)) "" ∈ entries.
Proof.
  intros Hwf Hcwd Hkey Hdir Hr1 Hpre Hname up Hup Hpath Hq listing.
  destruct (handleUploadPost_found dir st r1 pre post p Hr1 Hpre Hname Hup)
    as (Herr & f & Hc).
  assert (Hisdir : isDirectory st dir) by (exists key; done).
  pose proof (Base_plain st dir (FileName p) f Hwf Hisdir Hc) as Hplain.
  assert (Hf : f = path.Base (FileName p) :: key).
  { destruct Hc as (Hres & _).
    rewrite (resolve_Join st dir _ key Hkey) in Hres.
    injection Hres as <-. by rewrite walk_plain, text_chars. }
  subst f.
  assert (Hworld : world up =
    mkWorld (<[path.Base (FileName p) :: key := File (content p)]> (files st))
      (cwd st) (logs st ++ [receiveLine dir p])
      ((events st ++ replicate (S (length pre)) EvNextPart)
         ++ [EvCreate (path.Join [dir; path.Base (FileName p)])])).
  { subst up.
    by rewrite (handleUploadPost_stored dir st r1 pre post p _ Hr1 Hpre Hname Hc Herr). }
  assert (Hnav : navigationPath r2 = ".").
  { unfold navigationPath. by rewrite getQueryValueOrDefault_absent. }
  assert (Hkey' : os.resolve (world up) dir = Some key).
  { rewrite Hworld. exact Hkey. }
  assert (Hcwd' : absoluteCwd (world up)).
  { rewrite Hworld. exact Hcwd. }
  assert (Hdir' : os.lookup_node (files (world up)) key = Some Dir).
  { rewrite Hworld. cbn [files]. destruct key as [|y key']; [done|].
    simpl in *. rewrite lookup_insert_ne; [done|]. intros H. symmetry in H.
    by apply cons_neq in H. }
  pose proof (resolve_Join (world up) dir (navigationPath r2) key Hkey') as Hjoin.
  rewrite Hnav in Hjoin. change (os.walk key (chars ".")) with key in Hjoin.
  destruct (filepath_Abs_ok (world up) _ _ Hjoin) as (st1 & fullPath & Habs).
  assert (Hne : path.Join [dir; "."] <> "").
  { apply Join_nonempty. by intros ->. }
  pose proof (filepath_Abs_resolve (world up) st1 _ fullPath Hcwd' Hne Habs) as Hres.
  rewrite Hjoin in Hres. rewrite <- Hnav in Habs.
  subst listing.
  rewrite (handleRootGet_listed dir tmplRoot (world up) st1 r2 fullPath key
             Hpath Habs Hres Hdir').
  split; [done|]. eexists _, _. split; [reflexivity|].
  rewrite Hnav. unfold listingOf. apply list_elem_of_further.
  apply (list_elem_of_fmap_2
           (childEntry ".") _ (os.mkDirEntry (path.Base (FileName p)) false)).
  apply entries_children. exists (File (content p)). split; [|done].
  rewrite Hworld. cbn [files os.Name]. apply lookup_insert_eq.
Qed.

End SharedDirectory.

(** ** The way back to the parent *)

Lemma clean_step_settled (r : bool) (out : list (list ascii)) (c : list ascii) :
  settled r out -> slash ∉ c -> settled r (path.clean_step r out c).
Proof.
  intros Hout Hc. unfold path.clean_step.
  destruct (decide (c = [])); [done|].
  destruct (decide (c = path.dot)); [done|].
  assert (Hk : kept c) by done.
  destruct (decide (c = path.dotdot)) as [->|Hdd].
  - destruct out as [|last before].
    + destruct r; [done|]. simpl. repeat split; done.
    + destruct (decide (last = path.dotdot)) as [->|?].
      * simpl in *. destruct Hout as (Hk' & Hs & Hall).
        destruct (Hall eq_refl) as [-> Hb]. repeat split; try done.
        by constructor.
      * simpl in Hout. by destruct Hout as (_ & ? & _).
  - simpl. repeat split; done.
Qed.

Lemma foldl_clean_settled (r : bool) (comps : list (list ascii)) :
  forall out, settled r out -> Forall (fun e => slash ∉ e) comps ->
  settled r (foldl (path.clean_step r) out comps).
Proof.
  induction comps as [|c comps IH]; intros out Hout Hc; [done|].
  inversion Hc; subst. simpl. apply IH; [|done]. by apply clean_step_settled.
Qed.

Lemma settled_kept (r : bool) (out : list (list ascii)) :
  settled r out -> Forall kept out.
Proof.
  induction out as [|e out IH]; [constructor|].
  intros (Hk & Hs & _). constructor; auto.
Qed.

(** Scanning a settled output again writes it again. *)
Lemma clean_settled (r : bool) (out : list (list ascii)) :
  settled r out -> foldl (path.clean_step r) [] (rev out) = out.
Proof.
  induction out as [|e out IH]; [done|].
  intros (Hk & Hs & Hdd). simpl. rewrite foldl_app, IH by done. simpl.
  destruct Hk as (H1 & H2 & _). unfold path.clean_step.
  rewrite !decide_False by done.
  destruct (decide (e = path.dotdot)) as [->|?]; [|done].
  destruct (Hdd eq_refl) as [-> Hall].
  destruct out as [|last before]; [done|].
  inversion Hall; subst. by rewrite decide_True.
Qed.

(** The elements of a cleaned path, scanned, give the scan of the path. *)
Lemma clean_scan (s : list ascii) :
  s <> [] ->
  foldl (path.clean_step (path.is_rooted s)) [] (path.split (path.clean s))
  = foldl (path.clean_step (path.is_rooted s)) [] (path.split s).
Proof.
  intros Hs. unfold path.clean. destruct s as [|c s]; [done|].
  set (r := path.is_rooted (c :: s)).
  pose proof (foldl_clean_settled r (path.split (c :: s)) [] I
                (split_no_slash (c :: s))) as Hset.
  set (acc := foldl (path.clean_step r) [] (path.split (c :: s))) in *.
  pose proof (clean_settled r acc Hset) as Hre.
  assert (Hno : Forall (fun e => slash ∉ e) (rev acc)).
  { apply kept_no_slash, Forall_rev. by apply (settled_kept r). }
  cbv zeta. destruct r.
  - change (slash :: path.unsplit (rev acc)) with ([] ++ slash :: path.unsplit (rev acc)).
    rewrite split_app, foldl_app. simpl.
    destruct (rev acc) as [|e out] eqn:E.
    + simpl in *. by rewrite <- Hre.
    + by rewrite split_unsplit.
  - destruct (rev acc) as [|e out] eqn:E.
    + simpl in *. by rewrite <- Hre.
    + by rewrite split_unsplit.
Qed.

Lemma clean_scanned (s : list ascii) :
  s <> [] ->
  path.clean s =
    if path.is_rooted s
    then slash :: path.unsplit (rev (foldl (path.clean_step true) [] (path.split s)))
    else match rev (foldl (path.clean_step false) [] (path.split s)) with
         | [] => path.dot
         | out => path.unsplit out
         end.
Proof.
  intros Hs. destruct s as [|c s]; [done|].
  unfold path.clean. cbv zeta. destruct (path.is_rooted (c :: s)); [reflexivity|].
  by destruct (rev _).
Qed.

(** Cleaning the first part of a path before the rest is joined to it
    changes nothing. *)
Lemma clean_clean_join (s t : list ascii) :
  s <> [] ->
  path.clean (path.clean s ++ slash :: t) = path.clean (s ++ slash :: t).
Proof.
  intros Hs. destruct (clean_rooted s Hs) as [Hne Hr].
  assert (Hr1 : path.is_rooted (path.clean s ++ slash :: t) = path.is_rooted s).
  { rewrite <- Hr. by destruct (path.clean s). }
  assert (Hr2 : path.is_rooted (s ++ slash :: t) = path.is_rooted s)
    by (by destruct s).
  pose proof (clean_scan s Hs) as Hscan.
  rewrite (clean_scanned (path.clean s ++ _)) by (by destruct (path.clean s)).
  rewrite (clean_scanned (s ++ _)) by (by destruct s).
  rewrite Hr1, Hr2, !split_app, !foldl_app.
  destruct (path.is_rooted s); by rewrite Hscan.
Qed.

(** The parent of a child of a directory is the directory. *)
Lemma Join_Join_parent (p name : string) :
  p <> "" -> plain (chars name) ->
  path.Join [path.Join [p; name]; ".."] = path.Clean p.
Proof.
  intros Hp Hname.
  pose proof (chars_nonempty p Hp) as Hc.
  assert (Hpn : chars p ++ slash :: chars name <> []) by (by destruct (chars p)).
  assert (Hj : path.Join [p; name] <> "").
  { rewrite Join_dir by done. intros H. apply (f_equal chars) in H.
    rewrite chars_text in H.
    destruct (clean_rooted _ Hpn) as [Hne _]. by rewrite H in Hne. }
  rewrite (Join_dir (path.Join [p; name])) by done.
  rewrite (Join_dir p) by done. rewrite chars_text.
  rewrite clean_clean_join by done.
  unfold path.Clean. f_equal.
  rewrite <- app_assoc. cbn [app].
  rewrite (clean_scanned (chars p ++ _)) by (by destruct (chars p)).
  rewrite (clean_scanned (chars p)) by done.
  assert (Hr : path.is_rooted (chars p ++ slash :: chars name ++ slash :: chars "..")
               = path.is_rooted (chars p)) by (by destruct (chars p)).
  assert (Hstep : forall r out,
    foldl (path.clean_step r) out
      (path.split (chars name) ++ path.split (chars "..")) = out).
  { intros r out. rewrite (split_plain (chars name)) by apply Hname.
    change (path.split (chars "..")) with [path.dotdot]. cbn [foldl app].
    rewrite (clean_step_plain r out (chars name)) by exact Hname.
    unfold path.clean_step. rewrite !decide_False by done.
    rewrite decide_True by done. by rewrite decide_False by apply Hname. }
  rewrite Hr, !split_app.
  destruct (path.is_rooted (chars p)); by rewrite foldl_app, Hstep.
Qed.

(** X17.  The way back from a child.  In the listing of the child [name]
    of a relative navigation path [p], the parent link, followed as a GET
    request, asks the root path for the cleaned [p], and that path leads
    from the serve root to the directory [p] leads to. *)
Theorem parent_link_returns (st : World) (serveDir p name u : string)
    (key : list string) :
  p <> "" -> path.is_rooted (chars p) = false -> plain (chars name) ->
  os.resolve st serveDir = Some key ->
  addQueryToPath "/" {[ "p" := path.Join [path.Join [p; name]; ".."] ]} = inl u ->
  url.Path (http.URL (requestOf u)) = "/" /\
  navigationPath (requestOf u) = path.Clean p /\
  os.resolve st (path.Join [serveDir; navigationPath (requestOf u)])
  = os.resolve st (path.Join [serveDir; p]).
Proof.
  intros Hp Hrel Hname Hkey. rewrite addQueryToPath_root. intros [= <-].
  pose proof (chars_nonempty p Hp) as Hc.
  rewrite Join_Join_parent by done.
  assert (Hclean : path.Clean p <> "").
  { intros H. apply (f_equal chars) in H. unfold path.Clean in H.
    rewrite chars_text in H. by destruct (clean_rooted _ Hc) as [Hne _]. }
  assert (Hlink :
    url.Path (http.URL (requestOf ("/?p=" +:+ url.QueryEscape (path.Clean p)))) = "/" /\
    navigationPath (requestOf ("/?p=" +:+ url.QueryEscape (path.Clean p)))
    = path.Clean p)
    by (apply (navigationPath_link "/"); auto).
  destruct Hlink as [Hpath Hnav].
  split; [done|]. split; [done|].
  rewrite Hnav, !(resolve_Join st serveDir _ key Hkey).
  unfold path.Clean. rewrite chars_text, walk_clean; [done|done|congruence].
Qed.

(** ** The further properties at work *)

Lemma addQueryToPath_roundtrip_witness :
  exists q,
    addQueryToPath "/download" {[ "p" := "docs/b.txt" ]}
    = inl ("/download" +:+ "?" +:+ q) /\
    url.ParseQuery q = {[ "p" := ["docs/b.txt"] ]}.
Proof.
  apply (addQueryToPath_roundtrip "/download" "p" "docs/b.txt").
  right. reflexivity.
Defined.

Lemma listing_links_navigate_witness :
  (url.Path (http.URL (requestOf "/?p=.")) = "/" /\
   navigationPath (requestOf "/?p=.") = ".") /\
  url.Path (http.URL (requestOf "/download?p=docs%2Fb.txt")) = "/download" /\
  navigationPath (requestOf "/download?p=docs%2Fb.txt") = "docs/b.txt".
Proof.
  destruct (listing_links_navigate "docs") as [Hparent Hchild]; [discriminate|].
  split.
  - apply (Hparent "/?p=."). vm_compute. reflexivity.
  - apply (Hchild (os.mkDirEntry "b.txt" false)
                  (mkFileEntry "/download?p=docs%2Fb.txt" "b.txt" "")).
    vm_compute. reflexivity.
Defined.

Lemma download_follows_path_witness :
  let res := handleDownloadGet "/srv/docs" demo http.newResponse
               (demo_get "/download" "p=../a.txt") in
  exit res = Returned /\
  body (response res) = bytes_of "hi" /\
  status (response res) = 200.
Proof.
  apply (download_follows_path "/srv/docs" demo
           (demo_get "/download" "p=../a.txt") ["docs"; "srv"] (bytes_of "hi")).
  - vm_compute. reflexivity.
  - vm_compute. reflexivity.
Defined.

Lemma demo_absoluteCwd : absoluteCwd demo.
Proof. intros wd [= <-]. reflexivity. Defined.

Lemma listing_follows_path_witness :
  let res := handleRootGet "/srv/docs" demo_page demo http.newResponse
               (demo_get "/" "p=..") in
  exit res = Returned /\
  status (response res) = 200 /\
  exists fullPath,
    body (response res)
    = demo_page
        (mkTmplData fullPath
           [ mkFileEntry "/?p=..%2F.." "../" "<DIR>";
             mkFileEntry "/download?p=..%2Fa.txt" "a.txt" "";
             mkFileEntry "/?p=..%2Fdocs" "docs/" "<DIR>" ]).
Proof.
  destruct (listing_follows_path "/srv/docs" demo_page demo
              (demo_get "/" "p=..") ["docs"; "srv"])
    as (Hexit & Hstatus & fullPath & Hbody).
  - exact demo_absoluteCwd.
  - reflexivity.
  - vm_compute. reflexivity.
  - vm_compute. reflexivity.
  - split; [exact Hexit|]. split; [exact Hstatus|].
    exists fullPath. etransitivity; [exact Hbody|].
    vm_compute. reflexivity.
Defined.

Lemma upload_stays_in_output_dir_witness :
  let res := handleUploadPost "/srv" demo http.newResponse
               (demo_post (inl [GotPart part_climbing])) in
  (slash ∉ chars "passwd") /\
  files (world res) = <[["passwd"; "srv"] := File (bytes_of "x")]> (files demo).
Proof.
  apply (upload_stays_in_output_dir "/srv" demo
           (demo_post (inl [GotPart part_climbing])) [] [] part_climbing ["srv"]).
  - exact demo_wellFormed.
  - vm_compute. reflexivity.
  - vm_compute. reflexivity.
  - reflexivity.
  - constructor.
  - reflexivity.
  - vm_compute. reflexivity.
Defined.

Lemma upload_read_error_leaves_partial_file_witness :
  let res := handleUploadPost "/srv" demo http.newResponse
               (demo_post (inl [GotPart part_cut])) in
  exit res = Returned /\
  status (response res) = 400 /\
  files (world res) = <[["hello.txt"; "srv"] := File (bytes_of "he")]> (files demo).
Proof.
  apply (upload_read_error_leaves_partial_file "/srv" demo
           (demo_post (inl [GotPart part_cut])) [] [] part_cut
           ["hello.txt"; "srv"] unexpectedEOF).
  - reflexivity.
  - constructor.
  - reflexivity.
  - exact creatable_hello.
  - reflexivity.
Defined.

Lemma upload_truncated_body_witness :
  let res := handleUploadPost "/srv" demo http.newResponse
               (demo_post (inl [GotPart part_note; GotErr truncatedBody])) in
  exit res = Returned /\
  status (response res) = 400 /\
  files (world res) = files demo.
Proof.
  apply (upload_truncated_body "/srv" demo
           (demo_post (inl [GotPart part_note; GotErr truncatedBody]))
           [GotPart part_note] [] truncatedBody).
  - reflexivity.
  - constructor; [simpl; discriminate|constructor].
  - reflexivity.
Defined.

Lemma upload_ignores_later_parts_witness :
  handleUploadPost "/srv" demo http.newResponse
    (demo_post (inl [GotPart part_note; GotPart part_hello; GotErr malformedHeader]))
  = handleUploadPost "/srv" demo http.newResponse
      (demo_post (inl [GotPart part_note; GotPart part_hello])).
Proof.
  apply (upload_ignores_later_parts "/srv" demo http.newResponse "POST"
           (url.mkURL "/upload" "") [GotPart part_note]
           [GotErr malformedHeader] [] part_hello).
  reflexivity.
Defined.

Lemma listing_off_root_not_found_witness :
  let full := handleRootGet "/srv" demo_page demo http.newResponse
                (demo_get "/other" "p=docs") in
  let minimal := Minimal.handleRootGet [] demo http.newResponse
                   (demo_get "/other" "p=docs") in
  full = minimal /\
  world full = demo /\
  exit full = Returned /\
  status (response full) = 404 /\
  body (response full) = bytes_of ("404 page not found" +:+ newline).
Proof.
  apply (listing_off_root_not_found "/srv" demo_page demo
           (demo_get "/other" "p=docs") []).
  discriminate.
Defined.

Lemma listing_unreadable_directory_witness :
  let res := handleRootGet "/srv" demo_page demo http.newResponse
               (demo_get "/" "p=a.txt") in
  exit res = Returned /\
  status (response res) = 500 /\
  body (response res) = bytes_of newline /\
  files (world res) = files demo.
Proof.
  apply (listing_unreadable_directory "/srv" demo_page demo (demo_get "/" "p=a.txt")).
  - reflexivity.
  - intros st1 fullPath Habs. vm_compute in Habs.
    injection Habs as <- <-. vm_compute. discriminate.
Defined.

Lemma routes_by_method_witness :
  (rootRoute "/srv" demo_page demo http.newResponse (demo_get "/" "p=docs")
   = handleRootGet "/srv" demo_page demo http.newResponse (demo_get "/" "p=docs") /\
   uploadRoute "/srv" demo http.newResponse (demo_get "/" "p=docs")
   = mkResult demo (http.WriteHeader 405 http.newResponse) Returned) /\
  (uploadRoute "/srv" demo http.newResponse (demo_post (inl [GotPart part_hello]))
   = handleUploadPost "/srv" demo http.newResponse
       (demo_post (inl [GotPart part_hello])) /\
   rootRoute "/srv" demo_page demo http.newResponse
     (demo_post (inl [GotPart part_hello]))
   = mkResult demo (http.WriteHeader 405 http.newResponse) Returned) /\
  rootRoute "/srv" demo_page demo http.newResponse demo_put
  = mkResult demo (http.WriteHeader 405 http.newResponse) Returned /\
  downloadRoute "/srv" demo http.newResponse demo_put
  = mkResult demo (http.WriteHeader 405 http.newResponse) Returned /\
  uploadRoute "/srv" demo http.newResponse demo_put
  = mkResult demo (http.WriteHeader 405 http.newResponse) Returned.
Proof.
  split; [|split].
  - pose proof (routes_by_method "/srv" "/srv" demo_page demo http.newResponse
                  (demo_get "/" "p=docs")) as H.
    cbv zeta in H. destruct H as (Hget & _).
    destruct Hget as (Hroot & _ & Hupload); [reflexivity|].
    split; [exact Hroot|exact Hupload].
  - pose proof (routes_by_method "/srv" "/srv" demo_page demo http.newResponse
                  (demo_post (inl [GotPart part_hello]))) as H.
    cbv zeta in H. destruct H as (_ & Hpost & _).
    destruct Hpost as (Hupload & Hroot & _); [reflexivity|].
    split; [exact Hupload|exact Hroot].
  - pose proof (routes_by_method "/srv" "/srv" demo_page demo http.newResponse
                  demo_put) as H.
    cbv zeta in H. destruct H as (_ & _ & Hother).
    apply Hother; discriminate.
Defined.

Lemma upload_overwrites_witness :
  let first := handleUploadPost "/srv" demo http.newResponse
                 (demo_post (inl [GotPart part_hello])) in
  let second := handleUploadPost "/srv" (world first) http.newResponse
                  (demo_post (inl [GotPart part_again])) in
  status (response first) = 302 /\
  status (response second) = 302 /\
  files (world second)
  = <[["hello.txt"; "srv"] := File (bytes_of "bye")]> (files demo).
Proof.
  apply (upload_overwrites "/srv" demo
           (demo_post (inl [GotPart part_hello]))
           (demo_post (inl [GotPart part_again]))
           [] [] [] [] part_hello part_again ["hello.txt"; "srv"]).
  - reflexivity.
  - reflexivity.
  - constructor.
  - constructor.
  - reflexivity.
  - reflexivity.
  - vm_compute. reflexivity.
  - exact creatable_hello.
  - reflexivity.
  - reflexivity.
Defined.

Lemma minimal_upload_status_witness :
  let res := Minimal.handleUploadPost demo http.newResponse
               (demo_post (inl [GotPart part_note; GotPart part_cut])) in
  exit res = Returned /\ status (response res) = 400.
Proof.
  apply (minimal_upload_status demo
           (demo_post (inl [GotPart part_note; GotPart part_cut]))
           [GotPart part_note] [] part_cut).
  - reflexivity.
  - constructor; [simpl; discriminate|constructor].
  - reflexivity.
Defined.

Lemma uploaded_file_is_listed_witness :
  let up := handleUploadPost "/srv" demo http.newResponse
              (demo_post (inl [GotPart part_note; GotPart part_hello])) in
  let listing := handleRootGet "/srv" demo_page (world up) http.newResponse
                   (demo_get "/" "") in
  status (response listing) = 200 /\
  exists fullPath entries,
    body (response listing) = demo_page (mkTmplData fullPath entries) /\
    mkFileEntry "/download?p=hello.txt" "hello.txt" "" ∈ entries.
Proof.
  apply (uploaded_file_is_listed "/srv" demo_page demo
           (demo_post (inl [GotPart part_note; GotPart part_hello]))
           (demo_get "/" "") [GotPart part_note] [] part_hello ["srv"]).
  - exact demo_wellFormed.
  - exact demo_absoluteCwd.
  - vm_compute. reflexivity.
  - vm_compute. reflexivity.
  - reflexivity.
  - constructor; [simpl; discriminate|constructor].
  - reflexivity.
  - vm_compute. reflexivity.
  - reflexivity.
  - vm_compute. reflexivity.
Defined.

Lemma plain_old : plain (chars "old").
Proof.
  repeat split; try discriminate.
  intros Hin. apply list_elem_of_In in Hin. simpl in Hin. intuition discriminate.
Defined.

Lemma parent_link_returns_witness :
  url.Path (http.URL (requestOf "/?p=docs")) = "/" /\
  navigationPath (requestOf "/?p=docs") = "docs" /\
  os.resolve demo (path.Join ["/srv"; navigationPath (requestOf "/?p=docs")])
  = os.resolve demo (path.Join ["/srv"; "docs/."]).
Proof.
  apply (parent_link_returns demo "/srv" "docs/." "old" "/?p=docs" ["srv"]).
  - discriminate.
  - reflexivity.
  - exact plain_old.
  - vm_compute. reflexivity.
  - vm_compute. reflexivity.
Defined.

Lemma minimal_root_page_witness :
  Minimal.handleRootGet (bytes_of "Updown") demo http.newResponse
    (demo_get "/" "p=docs")
  = mkResult demo (mkResponse ∅ true 200 ∅ (bytes_of "Updown") []) Returned.
Proof.
  apply (minimal_root_page demo (demo_get "/" "p=docs") (bytes_of "Updown")).
  reflexivity.
Defined.
